(** * notion-note-taker: the text-to-notes pipeline of [src/App.jsx]

    A shallow embedding of the helper functions of [src/App.jsx]
    ([cleanText], [sentenceSplit], [tokenize], [STOPWORDS], [topTerms],
    [chunkOutline], [keyTakeaways], [guessTitle], [toMarkdown]) and the
    properties the specification states about them.

    A JavaScript string is a sequence of UTF-16 code units; it is modelled
    as a list of code units, each an [N].  The regular expressions that
    the source replaces or splits with are runs of one character class;
    each is embedded as the list function that the ECMAScript matching
    rules give for it, and is quoted next to that function.  The heading
    pattern, which is only tested and is anchored at both ends, is kept
    as a regular expression and decided with derivatives.  Integer
    arguments ([k], [n]) are in [Z], as [slice] treats a negative bound
    in its own way. *)

From Stdlib Require Import List Bool NArith ZArith Lia Ascii String Permutation Sorted.
Import ListNotations.

Local Open Scope N_scope.
Local Open Scope list_scope.

(** ** Strings as lists of UTF-16 code units *)

Definition char := N.
Definition jsstring := list char.

(** An ASCII literal as a JavaScript string. *)
Definition str (s : string) : jsstring :=
  List.map N_of_ascii (list_ascii_of_string s).

Definition LF : char := 10.          (* "\n" *)
Definition SPACE : char := 32.       (* " " *)
Definition NBSP : char := 160.       (* U+00A0, the no-break space *)
Definition BULLET : char := 8226.    (* U+2022, the bullet of the source *)
Definition EMDASH : char := 8212.    (* U+2014, the dash of the outline bullets *)

Fixpoint jsstring_eqb (a b : jsstring) : bool :=
  match a, b with
  | [], [] => true
  | x :: a', y :: b' => (x =? y) && jsstring_eqb a' b'
  | _, _ => false
  end.

(** ** Character classes *)

(** [\s] of an ECMAScript regular expression, which is also the set that
    [String.prototype.trim] strips: WhiteSpace and LineTerminator. *)
Definition isWhitespace (c : char) : bool :=
  ((9 <=? c) && (c <=? 13))            (* TAB LF VT FF CR *)
  || (c =? 32) || (c =? 160)           (* SP, NBSP *)
  || (c =? 5760)                       (* U+1680 *)
  || ((8192 <=? c) && (c <=? 8202))    (* U+2000 .. U+200A *)
  || (c =? 8232) || (c =? 8233)        (* U+2028, U+2029 *)
  || (c =? 8239) || (c =? 8287)        (* U+202F, U+205F *)
  || (c =? 12288) || (c =? 65279).     (* U+3000, U+FEFF *)

Definition isDigit (c : char) : bool := (48 <=? c) && (c <=? 57).   (* \d *)
Definition isUpper (c : char) : bool := (65 <=? c) && (c <=? 90).   (* [A-Z] *)
Definition isLower (c : char) : bool := (97 <=? c) && (c <=? 122).  (* [a-z] *)
Definition isTabOrSpace (c : char) : bool := (c =? 9) || (c =? 32). (* [\t ] *)
Definition isNewline (c : char) : bool := c =? 10.                  (* \n *)
Definition isTerminator (c : char) : bool :=                        (* [.!?] *)
  (c =? 46) || (c =? 33) || (c =? 63).

(** ** Generic string operations *)

Definition startsWith (p : char -> bool) (s : jsstring) : bool :=
  match s with
  | c :: _ => p c
  | [] => false
  end.

Fixpoint dropWhile (p : char -> bool) (s : jsstring) : jsstring :=
  match s with
  | c :: t => if p c then dropWhile p t else s
  | [] => []
  end.

Fixpoint takeWhile (p : char -> bool) (s : jsstring) : jsstring :=
  match s with
  | c :: t => if p c then c :: takeWhile p t else []
  | [] => []
  end.

(** [s.replace(/C+/g, rep)] for a character class [C]: the matches of a
    greedy [C+] are the maximal runs of [C], each replaced by [rep].  The
    replacement is emitted at the last character of the run. *)
Fixpoint replaceRuns (p : char -> bool) (rep : jsstring) (s : jsstring) : jsstring :=
  match s with
  | [] => []
  | c :: t =>
      if p c
      then if startsWith p t then replaceRuns p rep t
           else rep ++ replaceRuns p rep t
      else c :: replaceRuns p rep t
  end.

(** [s.replace(/\n{3,}/g, "\n\n")]: a greedy [\n{3,}] matches a maximal
    run of at least three newlines, which becomes two; runs of one or two
    newlines are not matched.  A newline that is followed by two more is
    dropped, which leaves exactly two of every longer run. *)
Definition twoNewlines (s : jsstring) : bool :=
  match s with
  | a :: b :: _ => isNewline a && isNewline b
  | _ => false
  end.

Fixpoint squeezeNewlines (s : jsstring) : jsstring :=
  match s with
  | [] => []
  | c :: t =>
      if isNewline c && twoNewlines t then squeezeNewlines t
      else c :: squeezeNewlines t
  end.

(** [String.prototype.trim]. *)
Definition trimStart (s : jsstring) : jsstring := dropWhile isWhitespace s.
Definition trimEnd (s : jsstring) : jsstring := rev (dropWhile isWhitespace (rev s)).
Definition trim (s : jsstring) : jsstring := trimEnd (trimStart s).

(** ** [cleanText]
<<
  function cleanText(t) {
    return (t || "")
      .replace(/\u00A0/g, " ") // nbsp
      .replace(/[\t ]+/g, " ")
      .replace(/\n{3,}/g, "\n\n")
      .trim();
  }
>>
    The argument is a string, so [t || ""] is [t]. *)
Definition nbspToSpace (c : char) : char := if c =? NBSP then SPACE else c.

Definition cleanText (t : jsstring) : jsstring :=
  trim (squeezeNewlines (replaceRuns isTabOrSpace [SPACE] (List.map nbspToSpace t))).

(** ** Splitting *)

(** [s.split(/C+/)] for a character class [C]: the separators are the
    maximal runs of [C].  The empty string gives one empty piece, and a
    separator at either end gives an empty piece there, as in
    ECMAScript. *)
Fixpoint splitRuns (p : char -> bool) (s : jsstring) : list jsstring :=
  match s with
  | [] => [[]]
  | c :: t =>
      if p c
      then if startsWith p t then splitRuns p t else [] :: splitRuns p t
      else match splitRuns p t with
           | piece :: rest => (c :: piece) :: rest
           | [] => [[c]]
           end
  end.

(** [s.split(/(?<=[.!?])\s+/)]: a separator is a maximal run of
    whitespace that starts right after one of [.!?].  [prevTerm] says that
    the previous character is such a terminator, [inSep] that the previous
    character belongs to a separator. *)
Fixpoint splitAfterTerminator (prevTerm inSep : bool) (s : jsstring) : list jsstring :=
  match s with
  | [] => [[]]
  | c :: t =>
      if isWhitespace c && (inSep || prevTerm)
      then if startsWith isWhitespace t
           then splitAfterTerminator false true t
           else [] :: splitAfterTerminator false false t
      else match splitAfterTerminator (isTerminator c) false t with
           | piece :: rest => (c :: piece) :: rest
           | [] => [[c]]
           end
  end.

(** [Array.prototype.join]. *)
Fixpoint join (sep : jsstring) (l : list jsstring) : jsstring :=
  match l with
  | [] => []
  | [a] => a
  | a :: rest => a ++ sep ++ join sep rest
  end.

(** [a.slice(0, e)] for an integer [e]: a negative [e] counts from the
    end of the array. *)
Definition slice0 {A : Type} (e : Z) (l : list A) : list A :=
  let len := Z.of_nat (List.length l) in
  let final := if (e <? 0)%Z then Z.max (len + e) 0 else Z.min e len in
  firstn (Z.to_nat final) l.

(** ** [sentenceSplit]
<<
  function sentenceSplit(t) {
    return cleanText(t)
      .replace(/\s+/g, " ")
      .split(/(?<=[.!?])\s+/)
      .filter((s) => s && s.length > 2);
  }
>> *)
Definition collapseWhitespace (s : jsstring) : jsstring :=
  replaceRuns isWhitespace [SPACE] s.

Definition longerThan2 (s : jsstring) : bool := (2 <? List.length s)%nat.

Definition sentenceSplit (t : jsstring) : list jsstring :=
  filter longerThan2
    (splitAfterTerminator false false (collapseWhitespace (cleanText t))).

(** ** Sorting

    [Array.prototype.sort] is stable, and the comparators of the source
    are consistent (differences of integers), so the result is the one
    stable ordering of the array; insertion from the right computes it.
    [cmp a b <= 0] means that [a] may stay before [b]. *)
Section Sort.
Context {A : Type} (cmp : A -> A -> Z).

Fixpoint insertSorted (x : A) (l : list A) : list A :=
  match l with
  | [] => [x]
  | y :: r => if (cmp x y <=? 0)%Z then x :: y :: r else y :: insertSorted x r
  end.

Fixpoint sortBy (l : list A) : list A :=
  match l with
  | [] => []
  | x :: r => insertSorted x (sortBy r)
  end.

End Sort.

(** The comparator [(a, b) => key(b) - key(a)], which both sorts of the
    source use: on the count [b[1] - a[1]], on the score
    [b.score - a.score]. *)
Definition byKeyDesc {A : Type} (key : A -> Z) (a b : A) : Z := (key b - key a)%Z.

(** ** The outline
<<
  function chunkOutline(text) {
    const lines = cleanText(text).split(/\n+/);
    const chunks = [];
    let buf = [];
    const push = (h, body) => chunks.push({ heading: h, body: body.join(" ") });
    for (const line of lines) {
      const isHeading =
        /^(\d+\.|\-|U+2022)?\s*[A-Z][A-Za-z0-9\s\-]{3,}$/.test(line) &&
        line.length < 80;
      if (isHeading) {
        if (buf.length) { push("Section", buf); buf = []; }
        chunks.push({ heading: line.trim(), body: "" });
      } else {
        buf.push(line.trim());
      }
    }
    if (buf.length) push("Section", buf);
    return chunks;
  }
>> *)

(** Regular expressions over code units, for [RegExp.prototype.test] of
    an expression anchored at both ends: the test succeeds exactly when
    the whole string is in the language, which Brzozowski derivatives
    decide. *)
Inductive regex : Type :=
  | Void : regex
  | Eps : regex
  | Class : (char -> bool) -> regex
  | Seq : regex -> regex -> regex
  | Alt : regex -> regex -> regex
  | Star : regex -> regex.

Fixpoint nullable (r : regex) : bool :=
  match r with
  | Void => false
  | Eps => true
  | Class _ => false
  | Seq a b => nullable a && nullable b
  | Alt a b => nullable a || nullable b
  | Star _ => true
  end.

Fixpoint deriv (c : char) (r : regex) : regex :=
  match r with
  | Void => Void
  | Eps => Void
  | Class p => if p c then Eps else Void
  | Seq a b =>
      if nullable a then Alt (Seq (deriv c a) b) (deriv c b)
      else Seq (deriv c a) b
  | Alt a b => Alt (deriv c a) (deriv c b)
  | Star a => Seq (deriv c a) (Star a)
  end.

Definition fullMatch (r : regex) (s : jsstring) : bool :=
  nullable (fold_left (fun r c => deriv c r) s r).

Definition Opt (r : regex) : regex := Alt Eps r.
Definition Plus (r : regex) : regex := Seq r (Star r).
Definition Chr (c : char) : regex := Class (N.eqb c).

(** [[A-Za-z0-9\s\-]] *)
Definition isHeadingChar (c : char) : bool :=
  isUpper c || isLower c || isDigit c || isWhitespace c || (c =? 45).

(** [/^(\d+\.|\-|U+2022)?\s*[A-Z][A-Za-z0-9\s\-]{3,}$/] *)
Definition headingRegex : regex :=
  Seq (Opt (Alt (Seq (Plus (Class isDigit)) (Chr 46))
                (Alt (Chr 45) (Chr BULLET))))
      (Seq (Star (Class isWhitespace))
           (Seq (Class isUpper)
                (Seq (Class isHeadingChar)
                     (Seq (Class isHeadingChar)
                          (Seq (Class isHeadingChar)
                               (Star (Class isHeadingChar))))))).

Definition isHeading (line : jsstring) : bool :=
  fullMatch headingRegex line && (List.length line <? 80)%nat.

Record chunk : Type := mkChunk { heading : jsstring; body : jsstring }.

Definition sectionLabel : jsstring := str "Section".

(** The closure [push] of the source, applied to the label and [buf]. *)
Definition push (chunks : list chunk) (h : jsstring) (b : list jsstring) : list chunk :=
  chunks ++ [mkChunk h (join [SPACE] b)].

(** One iteration of the loop over the lines; the state is the pair of
    [chunks] and [buf]. *)
Definition outlineStep (st : list chunk * list jsstring) (line : jsstring)
  : list chunk * list jsstring :=
  let (chunks, buf) := st in
  if isHeading line
  then let chunks' := match buf with
                      | [] => chunks
                      | _ :: _ => push chunks sectionLabel buf
                      end in
       (chunks' ++ [mkChunk (trim line) []], [])
  else (chunks, buf ++ [trim line]).

(** The statement after the loop. *)
Definition outlineFlush (st : list chunk * list jsstring) : list chunk :=
  let (chunks, buf) := st in
  match buf with
  | [] => chunks
  | _ :: _ => push chunks sectionLabel buf
  end.

(** The loop and the final flush, from a given state. *)
Definition outlineFrom (st : list chunk * list jsstring) (lines : list jsstring)
  : list chunk :=
  outlineFlush (fold_left outlineStep lines st).

Definition chunkLines (lines : list jsstring) : list chunk :=
  outlineFrom ([], []) lines.

Definition chunkOutline (text : jsstring) : list chunk :=
  chunkLines (splitRuns isNewline (cleanText text)).

(** ** Stop words
<<
  const STOPWORDS = new Set("the a an ... article".split(/\s+/));
>>
    A [Set] of strings is used for membership only. *)
Definition STOPWORDS : list jsstring :=
  splitRuns isWhitespace
    (str "the a an and or of to in is are was were be been for with on at by from as that this these those into over under about after before between within without using use used than more most very much many can could should would may might not no yes if then when where how what who which also etc data info page slide figure table section chapter article").

(** [STOPWORDS.has(w)] *)
Definition isStopword (w : jsstring) : bool := existsb (jsstring_eqb w) STOPWORDS.

(** ** Maps and sets in insertion order

    A [Map] iterates its entries in the order in which the keys were
    first set, and setting an existing key keeps its place; a [Set] keeps
    the first insertion of each element. *)
Definition freqMap := list (jsstring * Z).

Fixpoint mapGet (w : jsstring) (m : freqMap) : option Z :=
  match m with
  | [] => None
  | (k, v) :: r => if jsstring_eqb w k then Some v else mapGet w r
  end.

Fixpoint mapSet (w : jsstring) (v : Z) (m : freqMap) : freqMap :=
  match m with
  | [] => [(w, v)]
  | (k, v') :: r => if jsstring_eqb w k then (k, v) :: r else (k, v') :: mapSet w v r
  end.

(** [freq.get(w) || 0]: [undefined] and [0] both give [0]. *)
Definition orZero (o : option Z) : Z :=
  match o with
  | Some v => v
  | None => 0%Z
  end.

(** The body of the loop of [topTerms]:
    [freq.set(w, (freq.get(w) || 0) + 1)]. *)
Definition countStep (freq : freqMap) (w : jsstring) : freqMap :=
  mapSet w (orZero (mapGet w freq) + 1)%Z freq.

Definition setAdd (st : list jsstring) (w : jsstring) : list jsstring :=
  if existsb (jsstring_eqb w) st then st else st ++ [w].

(** [new Set(words)] *)
Definition newSet (words : list jsstring) : list jsstring :=
  fold_left setAdd words [].

(** The objects [{ s, score }] of [keyTakeaways]. *)
Module Scored.
Record t : Type := mk { s : jsstring; score : Z }.
End Scored.

Definition isAscii (c : char) : bool := c <? 128.
Definition lowerAscii (c : char) : char := if isUpper c then c + 32 else c.
Definition upperAscii (c : char) : char := if isLower c then c - 32 else c.

(** The characters that [/[^a-z0-9\s-]/gi] leaves alone.  With the [i]
    flag and without the [u] flag a character is compared through its
    upper-case form, and a character above U+007F is never identified
    with an ASCII one, so the class [a-z] also covers [A-Z] and nothing
    else. *)
Definition isTokenChar (c : char) : bool :=
  isLower c || isUpper c || isDigit c || isWhitespace c || (c =? 45).

(** The characters that [/^[\-U+2022\d.\s]+/] strips from a title. *)
Definition isTitlePrefix (c : char) : bool :=
  (c =? 45) || (c =? BULLET) || isDigit c || (c =? 46) || isWhitespace c.

Definition notesLabel : jsstring := str "Notes".

Section Pipeline.

(** [String.prototype.toLowerCase] applies the Unicode case mappings.  On
    a string of ASCII code units it maps [A-Z] to [a-z]; what it does on
    any other string is left open: it is the parameter [unicodeLower],
    and every property below holds whatever that function is. *)
Variable unicodeLower : jsstring -> jsstring.

Definition toLowerCase (s : jsstring) : jsstring :=
  if forallb isAscii s then List.map lowerAscii s else unicodeLower s.

(** ** [tokenize]
<<
  function tokenize(t) {
    return cleanText(t)
      .toLowerCase()
      .replace(/[^a-z0-9\s-]/gi, " ")
      .split(/\s+/)
      .filter((w) => w.length > 2 && !STOPWORDS.has(w));
  }
>> *)
Definition blankNonToken (c : char) : char := if isTokenChar c then c else SPACE.

Definition keepToken (w : jsstring) : bool :=
  (2 <? List.length w)%nat && negb (isStopword w).

Definition tokenize (t : jsstring) : list jsstring :=
  filter keepToken
    (splitRuns isWhitespace (List.map blankNonToken (toLowerCase (cleanText t)))).

(** ** [topTerms]
<<
  function topTerms(t, k = 12) {
    const freq = new Map();
    for (const w of tokenize(t)) freq.set(w, (freq.get(w) || 0) + 1);
    return [...freq.entries()]
      .sort((a, b) => b[1] - a[1])
      .slice(0, k)
      .map(([w]) => w);
  }
>> *)
Definition byCountDesc : jsstring * Z -> jsstring * Z -> Z := byKeyDesc snd.

Definition termFrequencies (t : jsstring) : freqMap :=
  fold_left countStep (tokenize t) [].

Definition topTerms (t : jsstring) (k : Z) : list jsstring :=
  List.map fst (slice0 k (sortBy byCountDesc (termFrequencies t))).

(** ** [keyTakeaways]
<<
  function keyTakeaways(text, n = 6) {
    const S = sentenceSplit(text);
    const scores = S.map((s) => {
      const words = tokenize(s);
      const uniq = new Set(words);
      return { s, score: uniq.size + Math.min(8, words.length) };
    });
    return scores
      .sort((a, b) => b.score - a.score)
      .slice(0, Math.min(n, scores.length))
      .map((x) => x.s);
  }
>> *)
Definition scoreSentence (s : jsstring) : Scored.t :=
  let words := tokenize s in
  let uniq := newSet words in
  Scored.mk s (Z.of_nat (List.length uniq)
               + Z.min 8 (Z.of_nat (List.length words)))%Z.

Definition byScoreDesc : Scored.t -> Scored.t -> Z := byKeyDesc Scored.score.

Definition keyTakeaways (text : jsstring) (n : Z) : list jsstring :=
  let S := sentenceSplit text in
  let scores := List.map scoreSentence S in
  List.map Scored.s
    (slice0 (Z.min n (Z.of_nat (List.length scores))) (sortBy byScoreDesc scores)).

(** ** [guessTitle]
<<
  function guessTitle(text) {
    const firstLine = cleanText(text).split(/\n+/)[0] || "Notes";
    if (firstLine.length < 80) return firstLine.replace(/^[\-U+2022\d.\s]+/, "");
    const terms = topTerms(text, 5).map((w) => w[0].toUpperCase() + w.slice(1));
    return terms.join(" U+2022 ") || "Notes";
  }
>> *)

(** [x || "Notes"] for a string [x]: the empty string is the falsy one. *)
Definition orNotes (x : jsstring) : jsstring :=
  match x with
  | [] => notesLabel
  | _ :: _ => x
  end.

(** [w[0].toUpperCase() + w.slice(1)].  The terms are tokens, made of
    [a-z], [A-Z], [0-9] and [-] only and longer than two characters, so
    [w[0]] exists and is an ASCII character. *)
Definition capitalize (w : jsstring) : jsstring :=
  match w with
  | [] => []
  | c :: r => upperAscii c :: r
  end.

Definition guessTitle (text : jsstring) : jsstring :=
  let firstLine := orNotes (hd [] (splitRuns isNewline (cleanText text))) in
  if (List.length firstLine <? 80)%nat
  then dropWhile isTitlePrefix firstLine
  else let terms := List.map capitalize (topTerms text 5) in
       orNotes (join [SPACE; BULLET; SPACE] terms).

(** ** [toMarkdown]
<<
  function toMarkdown(allText) {
    const title = guessTitle(allText);
    const takeaways = keyTakeaways(allText);
    const outline = chunkOutline(allText);
    const terms = topTerms(allText, 12);
    const md = [
      `# ${title}`,
      "",
      "## Key Takeaways",
      ...takeaways.map((t) => `- ${t}`),
      "",
      "## Outline",
      ...outline.map((c) => `- **${c.heading}** U+2014 ${c.body.slice(0, 220)}`),
      "",
      "## Terms",
      `> ${terms.join(", ")}`
    ].join("\n");
    return md;
  }
>> *)
Definition takeawayLine (t : jsstring) : jsstring := str "- " ++ t.

Definition outlineLine (c : chunk) : jsstring :=
  str "- **" ++ heading c ++ str "** " ++ [EMDASH; SPACE] ++ firstn 220 (body c).

Definition toMarkdown (allText : jsstring) : jsstring :=
  let title := guessTitle allText in
  let takeaways := keyTakeaways allText 6 in
  let outline := chunkOutline allText in
  let terms := topTerms allText 12 in
  join [LF]
    ([str "# " ++ title; []; str "## Key Takeaways"]
     ++ List.map takeawayLine takeaways
     ++ [[]; str "## Outline"]
     ++ List.map outlineLine outline
     ++ [[]; str "## Terms"; str "> " ++ join (str ", ") terms]).

End Pipeline.

(** * Specification predicates *)

(** ** Strings on which a step of [cleanText] changes nothing *)

(** Every character of the class [p] is a single space that no other
    character of the class follows: [replaceRuns p " "] is the identity
    on such a string. *)
Fixpoint settled (p : char -> bool) (s : jsstring) : bool :=
  match s with
  | [] => true
  | c :: t => (negb (p c) || ((c =? SPACE) && negb (startsWith p t))) && settled p t
  end.

(** No newline is followed by two more. *)
Fixpoint noTriple (s : jsstring) : bool :=
  match s with
  | [] => true
  | c :: t => negb (isNewline c && twoNewlines t) && noTriple t
  end.

Definition noNbsp (s : jsstring) : bool := forallb (fun c => negb (c =? NBSP)) s.

(** ** Vocabulary of the statements *)

(** No [.], [!] or [?] is directly followed by whitespace. *)
Fixpoint noTerminatorSpace (s : jsstring) : bool :=
  match s with
  | [] => true
  | c :: t => negb (isTerminator c && startsWith isWhitespace t) && noTerminatorSpace t
  end.

(** The distinct elements of a list of words, in the order of their first
    occurrence. *)
Fixpoint firstOccurrences (l : list jsstring) : list jsstring :=
  match l with
  | [] => []
  | w :: r => w :: filter (fun x => negb (jsstring_eqb x w)) (firstOccurrences r)
  end.

(** The number of occurrences of a word in a list of words. *)
Fixpoint occurrences (w : jsstring) (l : list jsstring) : Z :=
  match l with
  | [] => 0%Z
  | x :: r => ((if jsstring_eqb x w then 1 else 0) + occurrences w r)%Z
  end.

(** [w] is not among the words [ks]. *)
Definition freshIn (ks : list jsstring) (w : jsstring) : bool :=
  negb (existsb (jsstring_eqb w) ks).

(** An entry of the frequency map after the words [l] have been counted
    as well. *)
Definition bump (l : list jsstring) (e : jsstring * Z) : jsstring * Z :=
  (fst e, (snd e + occurrences (fst e) l)%Z).

(** The frequency table of a list of tokens: one entry per distinct
    token, in the order of first occurrence, with its number of
    occurrences. *)
Definition frequencyTable (tokens : list jsstring) : freqMap :=
  List.map (fun w => (w, occurrences w tokens)) (firstOccurrences tokens).

(** [ranked] is [table] sorted by [key], largest first, entries of equal
    key staying in the order they have in [table]. *)
Definition rankedBy {A : Type} (key : A -> Z) (table ranked : list A) : Prop :=
  Permutation ranked table
  /\ StronglySorted (fun a b => (key b <= key a)%Z) ranked
  /\ forall c : Z, filter (fun e => (key e =? c)%Z) ranked
                   = filter (fun e => (key e =? c)%Z) table.

(** The lines [rest] are exhausted or begin with a heading. *)
Definition headingOrEnd (rest : list jsstring) : bool :=
  match rest with
  | [] => true
  | l :: _ => isHeading l
  end.

(** The chunk that a non-empty run [bs] of body lines becomes. *)
Definition sectionOf (bs : list jsstring) : list chunk :=
  match bs with
  | [] => []
  | _ :: _ => [mkChunk sectionLabel (join [SPACE] (List.map trim bs))]
  end.

(** The string holds no newline: it is one line of the document. *)
Definition oneLine (s : jsstring) : bool := forallb (fun c => negb (isNewline c)) s.

(** Heading and body of a chunk are one line each. *)
Definition chunkOneLine (c : chunk) : Prop :=
  oneLine (heading c) = true /\ oneLine (body c) = true.

(** The first line of the normalized text, as [guessTitle] takes it. *)
Definition firstLineOf (text : jsstring) : jsstring :=
  orNotes (hd [] (splitRuns isNewline (cleanText text))).

(** The texts of the examples. *)
Definition outlineExample : jsstring :=
  str "Introduction" ++ [LF] ++ str "Some body text here." ++ [LF]
  ++ str "More body." ++ [LF; LF] ++ str "Conclusion" ++ [LF] ++ str "Final remarks.".

Definition termsExample : jsstring := str "cat cat cat dog dog bird".

Definition twoLines : jsstring := str "abc" ++ [LF] ++ str "def".

Definition twoSentences : jsstring := str "Abc def ghi. Jkl mno pqr.".

(** ** Vocabulary of the further properties *)

(** The characters of a string that are not whitespace, in order. *)
Definition visible (s : jsstring) : jsstring :=
  filter (fun c => negb (isWhitespace c)) s.

(** The characters a token can hold: ASCII letters, digits and the
    hyphen; and those of them that are not upper-case letters. *)
Definition isWordChar (c : char) : bool :=
  isLower c || isUpper c || isDigit c || (c =? 45).

Definition isLowerWordChar (c : char) : bool :=
  isLower c || isDigit c || (c =? 45).

(** The sum of the counts of a frequency map. *)
Definition sumCounts (m : freqMap) : Z :=
  fold_right (fun e acc => (snd e + acc)%Z) 0%Z m.

(** The language of a regular expression. *)
Inductive matches : regex -> jsstring -> Prop :=
  | MEps : matches Eps []
  | MClass (p : char -> bool) (c : char) : p c = true -> matches (Class p) [c]
  | MSeq (a b : regex) (s1 s2 : jsstring) :
      matches a s1 -> matches b s2 -> matches (Seq a b) (s1 ++ s2)
  | MAltL (a b : regex) (s : jsstring) : matches a s -> matches (Alt a b) s
  | MAltR (a b : regex) (s : jsstring) : matches b s -> matches (Alt a b) s
  | MStarNil (a : regex) : matches (Star a) []
  | MStarApp (a : regex) (s1 s2 : jsstring) :
      matches a s1 -> matches (Star a) s2 -> matches (Star a) (s1 ++ s2).

(** A line without its list marker: a hyphen, a bullet, or digits and a
    dot; a line with no such marker is left as it is. *)
Definition stripMarker (line : jsstring) : jsstring :=
  match line with
  | [] => []
  | c :: t =>
      if (c =? 45) || (c =? BULLET) then t
      else if isDigit c
           then match dropWhile isDigit line with
                | d :: t' => if d =? 46 then t' else line
                | [] => line
                end
           else line
  end.

(** An upper-case letter followed by at least three letters, digits,
    whitespace characters or hyphens, and nothing else. *)
Definition isTitleText (s : jsstring) : bool :=
  match s with
  | [] => false
  | c :: rest => isUpper c && (3 <=? List.length rest)%nat && forallb isHeadingChar rest
  end.

(** The shape of a heading line, read off the pattern: an optional
    marker, optional whitespace, then the title text. *)
Definition headingShape (line : jsstring) : bool :=
  isTitleText (dropWhile isWhitespace (stripMarker line)).

(** The three parts of the heading pattern: the title text, the
    whitespace before it, the marker. *)
Definition titleRegex : regex :=
  Seq (Class isUpper)
      (Seq (Class isHeadingChar)
           (Seq (Class isHeadingChar)
                (Seq (Class isHeadingChar) (Star (Class isHeadingChar))))).

Definition bodyRegex : regex := Seq (Star (Class isWhitespace)) titleRegex.

Definition markerRegex : regex :=
  Alt (Seq (Plus (Class isDigit)) (Chr 46)) (Alt (Chr 45) (Chr BULLET)).

(** The last character of [p] is one of [.!?]; [prev] answers for the
    empty string. *)
Fixpoint endsWithTerminator (prev : bool) (p : jsstring) : bool :=
  match p with
  | [] => prev
  | c :: r => endsWithTerminator (isTerminator c) r
  end.

(** Every element of a list but the last satisfies [P]. *)
Fixpoint allButLast {A : Type} (P : A -> bool) (l : list A) : bool :=
  match l with
  | [] => true
  | x :: r => match r with
              | [] => true
              | _ :: _ => P x && allButLast P r
              end
  end.

(** The number of newlines of a string. *)
Definition countNewlines (s : jsstring) : nat := List.length (filter isNewline s).

(** ** The extraction functions

    The two extraction functions wait for a library (pdf.js, Tesseract)
    and then assemble and normalize the text it returned.  What the
    library returned is the input here: for a PDF the text items of each
    page, an item being [Some] string or [None] when it has no [str]; for
    an image the recognized text, [None] when there is none.
<<
  async function extractFromPDF(file) {
    const data = await file.arrayBuffer();
    const pdf = await pdfjsLib.getDocument({ data }).promise;
    let text = "";
    for (let p = 1; p <= pdf.numPages; p++) {
      const page = await pdf.getPage(p);
      const content = await page.getTextContent();
      const pageText = content.items.map((i) => i.str || "").join(" ");
      text += "\n\n" + pageText;
    }
    return cleanText(text);
  }

  async function extractFromImage(file, setStage) {
    ...
    const { data } = await worker.recognize(file);
    await worker.terminate();
    return cleanText(data.text || "");
  }
>> *)

(** [x || ""] for a string or [undefined]. *)
Definition orEmpty (x : option jsstring) : jsstring :=
  match x with
  | Some s => s
  | None => []
  end.

Definition pageText (items : list (option jsstring)) : jsstring :=
  join [SPACE] (List.map orEmpty items).

(** One iteration of the loop over the pages. *)
Definition addPage (text : jsstring) (items : list (option jsstring)) : jsstring :=
  text ++ [LF; LF] ++ pageText items.

Definition extractFromPDF (pages : list (list (option jsstring))) : jsstring :=
  cleanText (fold_left addPage pages []).

Definition extractFromImage (dataText : option jsstring) : jsstring :=
  cleanText (orEmpty dataText).

(** The visible characters of the items of a document, page after page. *)
Definition visibleItems (pages : list (list (option jsstring))) : jsstring :=
  List.concat (List.map (fun items => List.concat (List.map (fun i => visible (orEmpty i)) items))
                 pages).

(** Every item of every page is whitespace only. *)
Definition blankPages (pages : list (list (option jsstring))) : bool :=
  forallb (forallb (fun i => forallb isWhitespace (orEmpty i))) pages.

(** A first line of more than 80 characters. *)
Definition longLine : jsstring :=
  str "alpha beta gamma alpha beta alpha delta epsilon zeta eta theta iota kappa lambda mu nu xi".

(** A character of a lower-case token, or the space that joins tokens. *)
Definition isJoinedChar (c : char) : bool := isLowerWordChar c || (c =? SPACE).

(** * Properties *)

(** ** The embedding on sample inputs *)

Example cleanText_sample :
  cleanText ([SPACE; SPACE] ++ str "a" ++ [9; NBSP; SPACE] ++ str "b" ++ [LF; LF; LF; LF]
             ++ str "c" ++ [LF; LF; SPACE; LF] ++ str "d" ++ [SPACE; LF])
  = str "a b" ++ [LF; LF] ++ str "c" ++ [LF; LF; SPACE; LF] ++ str "d".
Proof. reflexivity. Qed.

Example sentenceSplit_sample :
  sentenceSplit (str "ABC. DEF! GHI?") = [str "ABC."; str "DEF!"; str "GHI?"].
Proof. reflexivity. Qed.

Example sentenceSplit_short_fragments :
  sentenceSplit (str "Some text.   A. Ok?  More text here")
  = [str "Some text."; str "Ok?"; str "More text here"].
Proof. reflexivity. Qed.

Example splitRuns_edges :
  splitRuns isNewline [] = [[]]
  /\ splitRuns isNewline ([LF] ++ str "a" ++ [LF; LF] ++ str "b" ++ [LF])
     = [[]; str "a"; str "b"; []].
Proof. split; reflexivity. Qed.

Example isHeading_samples :
  List.map isHeading
    [str "Introduction"; str "1. Overview"; str "- Goals"; BULLET :: str " Scope";
     str "Abc"; str "lower case"; str "Ends with a dot."; str "1 Overview"; []]
  = [true; true; true; true; false; false; false; false; false].
Proof. vm_compute. reflexivity. Qed.

Example slice0_samples :
  slice0 2 [1; 2; 3] = [1; 2] /\ slice0 7 [1; 2; 3] = [1; 2; 3]
  /\ slice0 (-1) [1; 2; 3] = [1; 2] /\ slice0 (-5) [1; 2; 3] = [].
Proof. repeat split. Qed.

Example tokenize_sample (unicodeLower : jsstring -> jsstring) :
  tokenize unicodeLower (str "The Cat, the cat-dog and DATA is my 42nd ab x.y")
  = [str "cat"; str "cat-dog"; str "42nd"].
Proof. vm_compute. reflexivity. Qed.

(** ** Prefixes, suffixes and [trim] *)

Lemma takeWhile_dropWhile (p : char -> bool) (s : jsstring) :
  takeWhile p s ++ dropWhile p s = s.
Proof.
  induction s as [|c t IH]; simpl; [reflexivity|].
  destruct (p c); simpl; [now rewrite IH | reflexivity].
Qed.

Lemma startsWith_dropWhile (p : char -> bool) (s : jsstring) :
  startsWith p (dropWhile p s) = false.
Proof.
  induction s as [|c t IH]; simpl; [reflexivity|].
  destruct (p c) eqn:E; [exact IH | simpl; exact E].
Qed.

Lemma dropWhile_fixed (p : char -> bool) (s : jsstring) :
  startsWith p s = false -> dropWhile p s = s.
Proof.
  destruct s as [|c t]; simpl; [reflexivity|]. now intros ->.
Qed.

Lemma startsWith_app (p : char -> bool) (a b : jsstring) :
  startsWith p (a ++ b) = false -> startsWith p a = false.
Proof. destruct a; simpl; auto. Qed.

Lemma trimStart_suffix (s : jsstring) :
  s = takeWhile isWhitespace s ++ trimStart s.
Proof. unfold trimStart. now rewrite takeWhile_dropWhile. Qed.

Lemma trimEnd_prefix (s : jsstring) :
  s = trimEnd s ++ rev (takeWhile isWhitespace (rev s)).
Proof.
  unfold trimEnd. rewrite <- rev_app_distr, takeWhile_dropWhile.
  now rewrite rev_involutive.
Qed.

Lemma trim_infix (s : jsstring) :
  exists a b, s = a ++ trim s ++ b.
Proof.
  exists (takeWhile isWhitespace s), (rev (takeWhile isWhitespace (rev (trimStart s)))).
  unfold trim. rewrite <- trimEnd_prefix. apply trimStart_suffix.
Qed.

Lemma trimEnd_idempotent (s : jsstring) : trimEnd (trimEnd s) = trimEnd s.
Proof.
  unfold trimEnd. rewrite rev_involutive.
  now rewrite (dropWhile_fixed _ _ (startsWith_dropWhile _ _)).
Qed.

Lemma trim_idempotent (s : jsstring) : trim (trim s) = trim s.
Proof.
  unfold trim at 1. unfold trimStart.
  rewrite dropWhile_fixed.
  - unfold trim. apply trimEnd_idempotent.
  - unfold trim. apply startsWith_app with (b := rev (takeWhile isWhitespace (rev (trimStart s)))).
    rewrite <- trimEnd_prefix. apply startsWith_dropWhile.
Qed.

Section Settled.
Variable p : char -> bool.
Hypothesis p_space : p SPACE = true.

Lemma startsWith_replaceRuns (s : jsstring) :
  startsWith p (replaceRuns p [SPACE] s) = startsWith p s.
Proof.
  induction s as [|c t IH]; simpl; [reflexivity|].
  destruct (p c) eqn:E.
  - destruct (startsWith p t) eqn:F; simpl; [now rewrite IH | exact p_space].
  - simpl. exact E.
Qed.

Lemma settled_replaceRuns (s : jsstring) :
  settled p (replaceRuns p [SPACE] s) = true.
Proof.
  induction s as [|c t IH]; simpl; [reflexivity|].
  destruct (p c) eqn:E.
  - destruct (startsWith p t) eqn:F; [exact IH|].
    simpl. rewrite startsWith_replaceRuns, F, IH.
    now rewrite orb_true_r.
  - simpl. now rewrite E, IH.
Qed.

Lemma replaceRuns_settled (s : jsstring) :
  settled p s = true -> replaceRuns p [SPACE] s = s.
Proof.
  induction s as [|c t IH]; simpl; [reflexivity|].
  intros H. apply andb_prop in H as [H1 H2].
  rewrite (IH H2).
  destruct (p c) eqn:E; [|reflexivity].
  simpl in H1. apply andb_prop in H1 as [H1 H3].
  apply N.eqb_eq in H1. subst c.
  apply negb_true_iff in H3. now rewrite H3.
Qed.

Lemma settled_suffix (a s : jsstring) :
  settled p (a ++ s) = true -> settled p s = true.
Proof.
  induction a as [|c a IH]; simpl; [auto|].
  intros H. apply andb_prop in H as [_ H]. auto.
Qed.

Lemma settled_prefix (s b : jsstring) :
  settled p (s ++ b) = true -> settled p s = true.
Proof.
  induction s as [|c t IH]; simpl; [reflexivity|].
  intros H. apply andb_prop in H as [H1 H2].
  rewrite (IH H2), andb_true_r.
  destruct (p c); simpl in *; [|reflexivity].
  apply andb_prop in H1 as [H1 H3]. rewrite H1. simpl.
  apply negb_true_iff in H3. apply negb_true_iff.
  now apply startsWith_app with (b := b).
Qed.

End Settled.

Lemma twoNewlines_cons (c : char) (s : jsstring) :
  twoNewlines (c :: s) = isNewline c && startsWith isNewline s.
Proof. destruct s; simpl; [now rewrite andb_false_r | reflexivity]. Qed.

(** ** The list functions and the runs they stand for *)

(** A maximal run of the class is replaced by [rep] as a whole. *)
Lemma replaceRuns_run (p : char -> bool) (rep : jsstring) (c : char) (run rest : jsstring) :
  forallb p (c :: run) = true -> startsWith p rest = false ->
  replaceRuns p rep ((c :: run) ++ rest) = rep ++ replaceRuns p rep rest.
Proof.
  revert c. induction run as [|d run IH]; intros c H Hr.
  - simpl in *. rewrite andb_true_r in H. now rewrite H, Hr.
  - cbn [forallb] in H. apply andb_prop in H as [Hc H].
    pose proof H as Hd. cbn [forallb] in Hd. apply andb_prop in Hd as [Hd _].
    change (replaceRuns p rep ((c :: d :: run) ++ rest))
      with (if p c
            then if p d then replaceRuns p rep ((d :: run) ++ rest)
                 else rep ++ replaceRuns p rep ((d :: run) ++ rest)
            else c :: replaceRuns p rep ((d :: run) ++ rest)).
    rewrite Hc, Hd. now apply IH.
Qed.

Lemma squeezeNewlines_cons (c : char) (t : jsstring) :
  squeezeNewlines (c :: t)
  = if isNewline c && twoNewlines t then squeezeNewlines t else c :: squeezeNewlines t.
Proof. reflexivity. Qed.

(** A maximal run of three or more newlines becomes two newlines. *)
Lemma squeezeNewlines_run (n : nat) (rest : jsstring) :
  startsWith isNewline rest = false ->
  squeezeNewlines (repeat LF (n + 3) ++ rest) = LF :: LF :: squeezeNewlines rest.
Proof.
  intros Hr. induction n as [|n IH].
  - change (repeat LF (0 + 3) ++ rest) with (LF :: LF :: LF :: rest).
    assert (T : twoNewlines rest = false).
    { destruct rest as [|a [|b r]]; simpl in *; [reflexivity | reflexivity | now rewrite Hr]. }
    rewrite !squeezeNewlines_cons, !twoNewlines_cons. cbn [startsWith].
    rewrite Hr, T. reflexivity.
  - change (repeat LF (S n + 3) ++ rest) with (LF :: repeat LF (n + 3) ++ rest).
    rewrite squeezeNewlines_cons, IH.
    replace (n + 3)%nat with (S (S (S n))) by lia. reflexivity.
Qed.

(** A maximal run of the class separates two pieces. *)
Lemma splitRuns_run (p : char -> bool) (piece : jsstring) (c : char) (run rest : jsstring) :
  forallb (fun x => negb (p x)) piece = true ->
  forallb p (c :: run) = true -> startsWith p rest = false ->
  splitRuns p (piece ++ (c :: run) ++ rest) = piece :: splitRuns p rest.
Proof.
  intros Hp H Hr. induction piece as [|x piece IH].
  - clear Hp. revert c H. induction run as [|d run IH]; intros c H.
    + simpl in *. rewrite andb_true_r in H. now rewrite H, Hr.
    + cbn [forallb] in H. apply andb_prop in H as [Hc H].
      pose proof H as Hd. cbn [forallb] in Hd. apply andb_prop in Hd as [Hd _].
      change (splitRuns p ([] ++ (c :: d :: run) ++ rest))
        with (if p c
              then if p d then splitRuns p ([] ++ (d :: run) ++ rest)
                   else [] :: splitRuns p ([] ++ (d :: run) ++ rest)
              else match splitRuns p ([] ++ (d :: run) ++ rest) with
                   | piece :: others => (c :: piece) :: others
                   | [] => [[c]]
                   end).
      rewrite Hc, Hd. now apply IH.
  - cbn [forallb] in Hp. apply andb_prop in Hp as [Hx Hp].
    apply negb_true_iff in Hx.
    cbn [app splitRuns]. rewrite Hx.
    change (piece ++ c :: run ++ rest) with (piece ++ (c :: run) ++ rest).
    now rewrite (IH Hp).
Qed.

Lemma startsWith_squeezeNewlines (q : char -> bool) (s : jsstring) :
  startsWith q (squeezeNewlines s) = startsWith q s.
Proof.
  induction s as [|c t IH]; simpl; [reflexivity|].
  destruct (isNewline c && twoNewlines t) eqn:E; [|reflexivity].
  rewrite IH. apply andb_prop in E as [E1 E2].
  destruct t as [|a [|b r]]; simpl in *; try discriminate.
  apply andb_prop in E2 as [E2 _].
  unfold isNewline in *. apply N.eqb_eq in E1, E2. now subst.
Qed.

Lemma twoNewlines_squeezeNewlines (s : jsstring) :
  twoNewlines (squeezeNewlines s) = twoNewlines s.
Proof.
  induction s as [|c t IH]; [reflexivity|].
  cbn [squeezeNewlines].
  destruct (isNewline c && twoNewlines t) eqn:E.
  - rewrite IH. apply andb_prop in E as [E1 E2].
    rewrite twoNewlines_cons, E1, E2.
    destruct t as [|a [|b r]]; simpl in *; try discriminate.
    now apply andb_prop in E2 as [-> _].
  - now rewrite !twoNewlines_cons, startsWith_squeezeNewlines.
Qed.

Lemma noTriple_squeezeNewlines (s : jsstring) :
  noTriple (squeezeNewlines s) = true.
Proof.
  induction s as [|c t IH]; simpl; [reflexivity|].
  destruct (isNewline c && twoNewlines t) eqn:E; [exact IH|].
  simpl. now rewrite twoNewlines_squeezeNewlines, E, IH.
Qed.

Lemma squeezeNewlines_noTriple (s : jsstring) :
  noTriple s = true -> squeezeNewlines s = s.
Proof.
  induction s as [|c t IH]; simpl; [reflexivity|].
  intros H. apply andb_prop in H as [H1 H2].
  apply negb_true_iff in H1. now rewrite H1, (IH H2).
Qed.

Lemma noTriple_suffix (a s : jsstring) :
  noTriple (a ++ s) = true -> noTriple s = true.
Proof.
  induction a as [|c a IH]; simpl; [auto|].
  intros H. apply andb_prop in H as [_ H]. auto.
Qed.

Lemma twoNewlines_app (s b : jsstring) :
  twoNewlines (s ++ b) = false -> twoNewlines s = false.
Proof. destruct s as [|x [|y r]]; simpl; auto. Qed.

Lemma noTriple_prefix (s b : jsstring) :
  noTriple (s ++ b) = true -> noTriple s = true.
Proof.
  induction s as [|c t IH]; simpl; [reflexivity|].
  intros H. apply andb_prop in H as [H1 H2].
  rewrite (IH H2), andb_true_r.
  apply negb_true_iff in H1. apply negb_true_iff.
  apply andb_false_iff in H1 as [H1|H1]; [now rewrite H1|].
  rewrite (twoNewlines_app _ _ H1). apply andb_false_r.
Qed.

Lemma settled_squeezeNewlines (p : char -> bool) (s : jsstring) :
  settled p s = true -> settled p (squeezeNewlines s) = true.
Proof.
  induction s as [|c t IH]; simpl; [reflexivity|].
  intros H. apply andb_prop in H as [H1 H2].
  destruct (isNewline c && twoNewlines t); [auto|].
  simpl. now rewrite startsWith_squeezeNewlines, H1, (IH H2).
Qed.

Lemma noNbsp_map (s : jsstring) : noNbsp (List.map nbspToSpace s) = true.
Proof.
  induction s as [|c t IH]; simpl; [reflexivity|].
  rewrite IH, andb_true_r. unfold nbspToSpace.
  destruct (c =? NBSP) eqn:E; [reflexivity | now rewrite E].
Qed.

Lemma map_noNbsp (s : jsstring) :
  noNbsp s = true -> List.map nbspToSpace s = s.
Proof.
  induction s as [|c t IH]; simpl; [reflexivity|].
  intros H. apply andb_prop in H as [H1 H2].
  rewrite (IH H2). unfold nbspToSpace.
  apply negb_true_iff in H1. now rewrite H1.
Qed.

Lemma noNbsp_replaceRuns (p : char -> bool) (s : jsstring) :
  noNbsp s = true -> noNbsp (replaceRuns p [SPACE] s) = true.
Proof.
  induction s as [|c t IH]; simpl; [reflexivity|].
  intros H. apply andb_prop in H as [H1 H2].
  destruct (p c); [destruct (startsWith p t)|]; simpl; auto.
  now rewrite H1, (IH H2).
Qed.

Lemma noNbsp_squeezeNewlines (s : jsstring) :
  noNbsp s = true -> noNbsp (squeezeNewlines s) = true.
Proof.
  induction s as [|c t IH]; simpl; [reflexivity|].
  intros H. apply andb_prop in H as [H1 H2].
  destruct (isNewline c && twoNewlines t); simpl; auto.
  now rewrite H1, (IH H2).
Qed.

Lemma noNbsp_infix (a s b : jsstring) :
  noNbsp (a ++ s ++ b) = true -> noNbsp s = true.
Proof.
  unfold noNbsp. rewrite !forallb_app. intros H.
  apply andb_prop in H as [_ H]. now apply andb_prop in H as [H _].
Qed.

(** The four facts that make a second [cleanText] the identity. *)
Lemma cleanText_clean (t : jsstring) :
  noNbsp (cleanText t) = true
  /\ settled isTabOrSpace (cleanText t) = true
  /\ noTriple (cleanText t) = true
  /\ trim (cleanText t) = cleanText t.
Proof.
  unfold cleanText.
  set (u := squeezeNewlines (replaceRuns isTabOrSpace [SPACE] (List.map nbspToSpace t))).
  destruct (trim_infix u) as (a & b & Hu).
  assert (H1 : noNbsp u = true)
    by (apply noNbsp_squeezeNewlines, noNbsp_replaceRuns, noNbsp_map).
  assert (H2 : settled isTabOrSpace u = true)
    by (apply settled_squeezeNewlines, settled_replaceRuns; reflexivity).
  assert (H3 : noTriple u = true) by apply noTriple_squeezeNewlines.
  rewrite Hu in H1, H2, H3. repeat split.
  - now apply noNbsp_infix in H1.
  - apply settled_suffix in H2. now apply settled_prefix in H2.
  - apply noTriple_suffix in H3. now apply noTriple_prefix in H3.
  - apply trim_idempotent.
Qed.

(** C7: [cleanText] is idempotent, [cleanText (cleanText x) = cleanText x]
    for every string [x]; and its result has no no-break space, no tab and
    no two adjacent spaces, no three consecutive newlines, and no leading
    or trailing whitespace. *)
Theorem cleanText_idempotent (x : jsstring) :
  cleanText (cleanText x) = cleanText x
  /\ noNbsp (cleanText x) = true
  /\ settled isTabOrSpace (cleanText x) = true
  /\ noTriple (cleanText x) = true
  /\ startsWith isWhitespace (cleanText x) = false
  /\ startsWith isWhitespace (rev (cleanText x)) = false.
Proof.
  destruct (cleanText_clean x) as (H1 & H2 & H3 & H4).
  repeat split; auto.
  - unfold cleanText at 1.
    now rewrite (map_noNbsp _ H1), (replaceRuns_settled _ _ H2),
      (squeezeNewlines_noTriple _ H3).
  - rewrite <- H4. unfold trim.
    apply startsWith_app with (b := rev (takeWhile isWhitespace (rev (trimStart (cleanText x))))).
    rewrite <- trimEnd_prefix. apply startsWith_dropWhile.
  - unfold cleanText, trim, trimEnd. rewrite rev_involutive.
    apply startsWith_dropWhile.
Qed.

(** ** Equality of strings *)

Lemma jsstring_eqb_spec (a b : jsstring) : reflect (a = b) (jsstring_eqb a b).
Proof.
  revert b. induction a as [|x a IH]; intros [|y b]; simpl;
    try (constructor; congruence).
  destruct (N.eqb_spec x y) as [->|Hxy]; simpl.
  - destruct (IH b) as [->|Hab]; constructor; congruence.
  - constructor; congruence.
Qed.

Lemma jsstring_eqb_refl (a : jsstring) : jsstring_eqb a a = true.
Proof. now destruct (jsstring_eqb_spec a a). Qed.

Lemma jsstring_eqb_sym (a b : jsstring) : jsstring_eqb a b = jsstring_eqb b a.
Proof.
  destruct (jsstring_eqb_spec a b) as [->|H].
  - now rewrite jsstring_eqb_refl.
  - destruct (jsstring_eqb_spec b a); congruence.
Qed.

Lemma existsb_eqb_In (w : jsstring) (l : list jsstring) :
  existsb (jsstring_eqb w) l = true <-> In w l.
Proof.
  rewrite existsb_exists. split.
  - intros (x & Hx & E). now destruct (jsstring_eqb_spec w x); subst.
  - intros H. exists w. split; [exact H | apply jsstring_eqb_refl].
Qed.

(** ** The sentence splitter *)

Lemma isTerminator_not_whitespace (c : char) :
  isTerminator c = true -> isWhitespace c = false.
Proof.
  unfold isTerminator. intros H.
  apply orb_prop in H as [H|H]; [apply orb_prop in H as [H|H]|];
    apply N.eqb_eq in H; subst; reflexivity.
Qed.

Lemma isWhitespace_nbspToSpace (c : char) :
  isWhitespace (nbspToSpace c) = isWhitespace c.
Proof.
  unfold nbspToSpace. destruct (N.eqb_spec c NBSP) as [->|]; reflexivity.
Qed.

Lemma isTerminator_nbspToSpace (c : char) :
  isTerminator (nbspToSpace c) = isTerminator c.
Proof.
  unfold nbspToSpace. destruct (N.eqb_spec c NBSP) as [->|]; reflexivity.
Qed.

Lemma noTerminatorSpace_map (s : jsstring) :
  noTerminatorSpace (List.map nbspToSpace s) = noTerminatorSpace s.
Proof.
  induction s as [|c t IH]; simpl; [reflexivity|].
  rewrite IH, isTerminator_nbspToSpace. f_equal. f_equal. f_equal.
  destruct t; simpl; [reflexivity | apply isWhitespace_nbspToSpace].
Qed.

Section WhitespaceRuns.
Variable p : char -> bool.
Hypothesis p_whitespace : forall c, p c = true -> isWhitespace c = true.

Lemma startsWith_whitespace (s : jsstring) :
  startsWith p s = true -> startsWith isWhitespace s = true.
Proof. destruct s; simpl; auto; discriminate. Qed.

Lemma startsWith_whitespace_replaceRuns (s : jsstring) :
  startsWith isWhitespace (replaceRuns p [SPACE] s) = startsWith isWhitespace s.
Proof.
  induction s as [|c t IH]; simpl; [reflexivity|].
  destruct (p c) eqn:E; [|reflexivity].
  rewrite (p_whitespace _ E).
  destruct (startsWith p t) eqn:F; [|reflexivity].
  rewrite IH. now apply startsWith_whitespace.
Qed.

Lemma noTerminatorSpace_replaceRuns (s : jsstring) :
  noTerminatorSpace s = true -> noTerminatorSpace (replaceRuns p [SPACE] s) = true.
Proof.
  induction s as [|c t IH]; simpl; [reflexivity|].
  intros H. apply andb_prop in H as [H1 H2]. specialize (IH H2).
  destruct (p c) eqn:E.
  - destruct (startsWith p t); [exact IH | simpl; exact IH].
  - simpl. now rewrite startsWith_whitespace_replaceRuns, H1, IH.
Qed.

End WhitespaceRuns.

Lemma isTabOrSpace_whitespace (c : char) :
  isTabOrSpace c = true -> isWhitespace c = true.
Proof.
  unfold isTabOrSpace. intros H.
  apply orb_prop in H as [H|H]; apply N.eqb_eq in H; subst; reflexivity.
Qed.

Lemma noTerminatorSpace_squeezeNewlines (s : jsstring) :
  noTerminatorSpace s = true -> noTerminatorSpace (squeezeNewlines s) = true.
Proof.
  induction s as [|c t IH]; simpl; [reflexivity|].
  intros H. apply andb_prop in H as [H1 H2]. specialize (IH H2).
  destruct (isNewline c && twoNewlines t); [exact IH|].
  simpl. now rewrite startsWith_squeezeNewlines, H1, IH.
Qed.

Lemma noTerminatorSpace_suffix (a s : jsstring) :
  noTerminatorSpace (a ++ s) = true -> noTerminatorSpace s = true.
Proof.
  induction a as [|c a IH]; simpl; [auto|].
  intros H. apply andb_prop in H as [_ H]. auto.
Qed.

Lemma noTerminatorSpace_prefix (s b : jsstring) :
  noTerminatorSpace (s ++ b) = true -> noTerminatorSpace s = true.
Proof.
  induction s as [|c t IH]; simpl; [reflexivity|].
  intros H. apply andb_prop in H as [H1 H2].
  rewrite (IH H2), andb_true_r.
  apply negb_true_iff in H1. apply negb_true_iff.
  apply andb_false_iff in H1 as [H1|H1]; [now rewrite H1|].
  rewrite (startsWith_app _ _ _ H1). apply andb_false_r.
Qed.

Lemma noTerminatorSpace_cleanText (t : jsstring) :
  noTerminatorSpace t = true -> noTerminatorSpace (cleanText t) = true.
Proof.
  intros H. unfold cleanText.
  set (u := squeezeNewlines (replaceRuns isTabOrSpace [SPACE] (List.map nbspToSpace t))).
  assert (Hu : noTerminatorSpace u = true).
  { apply noTerminatorSpace_squeezeNewlines.
    apply noTerminatorSpace_replaceRuns; [exact isTabOrSpace_whitespace|].
    now rewrite noTerminatorSpace_map. }
  destruct (trim_infix u) as (a & b & E). rewrite E in Hu.
  apply noTerminatorSpace_suffix in Hu. now apply noTerminatorSpace_prefix in Hu.
Qed.

Lemma splitAfterTerminator_whole (prev : bool) (s : jsstring) :
  noTerminatorSpace s = true ->
  (prev = true -> startsWith isWhitespace s = false) ->
  splitAfterTerminator prev false s = [s].
Proof.
  revert prev. induction s as [|c t IH]; intros prev H Hp; simpl; [reflexivity|].
  simpl in H. apply andb_prop in H as [H1 H2].
  assert (E : isWhitespace c && prev = false).
  { destruct prev; [|apply andb_false_r]. simpl in Hp. now rewrite Hp. }
  rewrite E. rewrite (IH (isTerminator c) H2); [reflexivity|].
  intros Ht. rewrite Ht in H1. simpl in H1. now apply negb_true_iff in H1.
Qed.

(** C6, as amended: when no [.], [!] or [?] of the text is directly
    followed by whitespace, [sentenceSplit] returns exactly one sentence,
    the whole normalized text with every run of whitespace collapsed to a
    single space, when that string is longer than 2 characters, and no
    sentence when it has at most 2 characters. *)
Theorem sentenceSplit_unterminated (t : jsstring) :
  noTerminatorSpace t = true ->
  sentenceSplit t =
    if (2 <? List.length (collapseWhitespace (cleanText t)))%nat
    then [collapseWhitespace (cleanText t)]
    else [].
Proof.
  intros H. unfold sentenceSplit.
  rewrite splitAfterTerminator_whole; [reflexivity | | discriminate].
  apply noTerminatorSpace_replaceRuns; [auto|].
  now apply noTerminatorSpace_cleanText.
Qed.

Lemma sentenceSplit_unterminated_witness :
  noTerminatorSpace twoLines = true
  /\ sentenceSplit twoLines = [str "abc def"].
Proof.
  split; [reflexivity|].
  exact (sentenceSplit_unterminated twoLines eq_refl).
Defined.

(** C6, as stated, fails: the text "abc", newline, "def" has no
    terminator, is its own trimmed (and normalized) form and is longer
    than 2 characters, yet the sentence returned is "abc def", with the
    newline replaced by a space, not the trimmed text. *)
Lemma sentenceSplit_not_trimmed_text :
  noTerminatorSpace twoLines = true
  /\ trim twoLines = twoLines
  /\ cleanText twoLines = twoLines
  /\ (2 <? List.length (trim twoLines))%nat = true
  /\ sentenceSplit twoLines = [str "abc def"]
  /\ sentenceSplit twoLines <> [trim twoLines].
Proof.
  repeat split; try reflexivity. vm_compute. discriminate.
Qed.

(** ** Sorting by a key, largest first *)

Section SortByKey.
Context {A : Type} (key : A -> Z).

Lemma insertSorted_perm (x : A) (l : list A) :
  Permutation (insertSorted (byKeyDesc key) x l) (x :: l).
Proof.
  induction l as [|y r IH]; simpl; [reflexivity|].
  destruct (byKeyDesc key x y <=? 0)%Z; [reflexivity|].
  rewrite IH. apply perm_swap.
Qed.

Lemma sortBy_perm (l : list A) : Permutation (sortBy (byKeyDesc key) l) l.
Proof.
  induction l as [|x r IH]; simpl; [reflexivity|].
  rewrite insertSorted_perm. now constructor.
Qed.

Lemma insertSorted_sorted (x : A) (l : list A) :
  StronglySorted (fun a b => (key b <= key a)%Z) l ->
  StronglySorted (fun a b => (key b <= key a)%Z) (insertSorted (byKeyDesc key) x l).
Proof.
  induction l as [|y r IH]; simpl; intros H.
  - repeat constructor.
  - inversion H as [|? ? Hr Hy]; subst.
    destruct (Z.leb_spec (byKeyDesc key x y) 0) as [L|L]; unfold byKeyDesc in L.
    + constructor; [exact H|]. constructor; [lia|].
      eapply Forall_impl; [|exact Hy]. simpl. intros; lia.
    + constructor; [auto|].
      eapply Permutation_Forall.
      * symmetry. apply insertSorted_perm.
      * constructor; [lia | exact Hy].
Qed.

Lemma sortBy_sorted (l : list A) :
  StronglySorted (fun a b => (key b <= key a)%Z) (sortBy (byKeyDesc key) l).
Proof.
  induction l as [|x r IH]; simpl; [constructor|].
  now apply insertSorted_sorted.
Qed.

Lemma insertSorted_stable (c : Z) (x : A) (l : list A) :
  filter (fun e => (key e =? c)%Z) (insertSorted (byKeyDesc key) x l)
  = filter (fun e => (key e =? c)%Z) (x :: l).
Proof.
  induction l as [|y r IH]; [reflexivity|].
  cbn [insertSorted].
  destruct (Z.leb_spec (byKeyDesc key x y) 0) as [L|L]; [reflexivity|].
  unfold byKeyDesc in L. cbn [filter] in *. rewrite IH.
  destruct (Z.eqb_spec (key x) c), (Z.eqb_spec (key y) c); try reflexivity.
  lia.
Qed.

Lemma sortBy_stable (c : Z) (l : list A) :
  filter (fun e => (key e =? c)%Z) (sortBy (byKeyDesc key) l)
  = filter (fun e => (key e =? c)%Z) l.
Proof.
  induction l as [|x r IH]; [reflexivity|].
  cbn [sortBy]. rewrite insertSorted_stable. cbn [filter]. now rewrite IH.
Qed.

Lemma sortBy_ranked (l : list A) : rankedBy key l (sortBy (byKeyDesc key) l).
Proof.
  repeat split.
  - apply sortBy_perm.
  - apply sortBy_sorted.
  - intros c. apply sortBy_stable.
Qed.

End SortByKey.

(** Two rankings of one table are equal: [rankedBy] determines the
    sorted list. *)
Lemma sorted_stable_unique {A : Type} (key : A -> Z) (r1 r2 : list A) :
  StronglySorted (fun a b => (key b <= key a)%Z) r1 ->
  StronglySorted (fun a b => (key b <= key a)%Z) r2 ->
  (forall c : Z, filter (fun e => (key e =? c)%Z) r1
                 = filter (fun e => (key e =? c)%Z) r2) ->
  r1 = r2.
Proof.
  intros S1. revert r2. induction S1 as [|x r1 S1 IH F1]; intros r2 S2 E.
  - destruct r2 as [|y r2]; [reflexivity|].
    specialize (E (key y)). simpl in E. rewrite Z.eqb_refl in E. discriminate E.
  - destruct S2 as [|y r2 S2 F2].
    + specialize (E (key x)). simpl in E. rewrite Z.eqb_refl in E. discriminate E.
    + assert (Lyx : (key y <= key x)%Z).
      { assert (H : In y (filter (fun e => (key e =? key y)%Z) (x :: r1))).
        { rewrite (E (key y)). simpl. rewrite Z.eqb_refl. now left. }
        apply filter_In in H as [[->|H] _]; [lia|].
        now apply (proj1 (Forall_forall _ _) F1). }
      assert (Lxy : (key x <= key y)%Z).
      { assert (H : In x (filter (fun e => (key e =? key x)%Z) (y :: r2))).
        { rewrite <- (E (key x)). simpl. rewrite Z.eqb_refl. now left. }
        apply filter_In in H as [[->|H] _]; [lia|].
        now apply (proj1 (Forall_forall _ _) F2). }
      assert (K : key x = key y) by lia.
      pose proof (E (key x)) as Ex. simpl in Ex.
      rewrite Z.eqb_refl, <- K, Z.eqb_refl in Ex.
      injection Ex as -> Ex. f_equal. apply IH; [exact S2|].
      intros c. specialize (E c). simpl in E.
      destruct (key y =? c)%Z; [now injection E | exact E].
Qed.

Lemma rankedBy_unique {A : Type} (key : A -> Z) (table r1 r2 : list A) :
  rankedBy key table r1 -> rankedBy key table r2 -> r1 = r2.
Proof.
  intros (_ & S1 & E1) (_ & S2 & E2).
  apply (sorted_stable_unique key); auto.
  intros c. now rewrite E1, E2.
Qed.

(** ** [slice(0, e)] *)

Lemma slice0_firstn {A : Type} (e : Z) (l : list A) :
  exists m, slice0 e l = firstn m l.
Proof. unfold slice0. eauto. Qed.

Lemma slice0_nonneg {A : Type} (e : Z) (l : list A) :
  (0 <= e)%Z -> slice0 e l = firstn (Z.to_nat e) l.
Proof.
  intros H. unfold slice0.
  destruct (Z.ltb_spec e 0) as [L|L]; [lia|].
  destruct (Z.le_ge_cases e (Z.of_nat (List.length l))) as [G|G].
  - now rewrite Z.min_l.
  - rewrite Z.min_r, Nat2Z.id by exact G.
    rewrite !firstn_all2; [reflexivity | lia | lia].
Qed.

Lemma firstn_In {A : Type} (m : nat) (l : list A) (x : A) :
  In x (firstn m l) -> In x l.
Proof.
  intros H. rewrite <- (firstn_skipn m l). apply in_or_app. now left.
Qed.

Lemma firstn_NoDup {A : Type} (m : nat) (l : list A) :
  NoDup l -> NoDup (firstn m l).
Proof.
  intros H. rewrite <- (firstn_skipn m l) in H.
  now apply NoDup_app_remove_r in H.
Qed.

(** ** The tokenizer *)

Lemma isStopword_In (w : jsstring) : isStopword w = true <-> In w STOPWORDS.
Proof. unfold isStopword. apply existsb_eqb_In. Qed.

(** C8: for every input string [tokenize] returns a sequence with no
    element of [STOPWORDS] and no element of length at most 2, and on the
    empty string it returns the empty sequence. *)
Theorem tokenize_filtered (unicodeLower : jsstring -> jsstring) (t : jsstring) :
  Forall (fun w => (2 < List.length w)%nat /\ ~ In w STOPWORDS)
    (tokenize unicodeLower t)
  /\ tokenize unicodeLower [] = [].
Proof.
  split; [|reflexivity].
  apply Forall_forall. intros w H.
  unfold tokenize in H. apply filter_In in H as [_ H].
  unfold keepToken in H. apply andb_prop in H as [H1 H2].
  split.
  - now apply Nat.ltb_lt in H1.
  - intros Hin. apply isStopword_In in Hin.
    rewrite Hin in H2. discriminate H2.
Qed.

(** ** Distinct words in the order of first occurrence *)

Lemma freshIn_true (ks : list jsstring) (w : jsstring) :
  freshIn ks w = true <-> ~ In w ks.
Proof.
  unfold freshIn. rewrite negb_true_iff, <- existsb_eqb_In.
  destruct (existsb (jsstring_eqb w) ks); split; congruence.
Qed.

Lemma freshIn_false (ks : list jsstring) (w : jsstring) :
  freshIn ks w = false <-> In w ks.
Proof.
  unfold freshIn. rewrite negb_false_iff. apply existsb_eqb_In.
Qed.

Lemma freshIn_snoc (ks : list jsstring) (w x : jsstring) :
  freshIn (ks ++ [w]) x = negb (jsstring_eqb x w) && freshIn ks x.
Proof.
  unfold freshIn. rewrite existsb_app. simpl. rewrite orb_false_r, negb_orb.
  apply andb_comm.
Qed.

Lemma filter_filter {A : Type} (f g : A -> bool) (l : list A) :
  filter f (filter g l) = filter (fun x => g x && f x) l.
Proof.
  induction l as [|x l IH]; simpl; [reflexivity|].
  destruct (g x); simpl; [destruct (f x)|]; now rewrite IH.
Qed.

Lemma filter_all {A : Type} (f : A -> bool) (l : list A) :
  (forall x, In x l -> f x = true) -> filter f l = l.
Proof.
  induction l as [|x l IH]; simpl; intros H; [reflexivity|].
  rewrite (H x (or_introl eq_refl)), IH; auto.
Qed.

Lemma filter_fresh_known (ks : list jsstring) (w : jsstring) (l : list jsstring) :
  In w ks ->
  filter (freshIn ks) (filter (fun x => negb (jsstring_eqb x w)) l)
  = filter (freshIn ks) l.
Proof.
  intros Hw. rewrite filter_filter. apply filter_ext. intros x.
  destruct (jsstring_eqb_spec x w) as [->|]; [|reflexivity].
  simpl. symmetry. now apply freshIn_false.
Qed.

Lemma filter_fresh_snoc (ks : list jsstring) (w : jsstring) (l : list jsstring) :
  filter (freshIn (ks ++ [w])) l
  = filter (freshIn ks) (filter (fun x => negb (jsstring_eqb x w)) l).
Proof.
  rewrite filter_filter. apply filter_ext. intros x. apply freshIn_snoc.
Qed.

Lemma firstOccurrences_In (l : list jsstring) (x : jsstring) :
  In x (firstOccurrences l) <-> In x l.
Proof.
  induction l as [|w r IH]; simpl; [tauto|].
  rewrite filter_In, IH, negb_true_iff.
  destruct (jsstring_eqb_spec x w) as [->|N]; split; intros H; auto.
  - destruct H as [H|[H _]]; auto.
  - destruct H as [H|H]; [congruence | auto].
Qed.

Lemma firstOccurrences_NoDup (l : list jsstring) : NoDup (firstOccurrences l).
Proof.
  induction l as [|w r IH]; simpl; constructor.
  - rewrite filter_In, jsstring_eqb_refl. intros [_ H]. discriminate H.
  - now apply NoDup_filter.
Qed.

Lemma setAdd_known (st : list jsstring) (w : jsstring) :
  In w st -> setAdd st w = st.
Proof. intros H. unfold setAdd. apply existsb_eqb_In in H. now rewrite H. Qed.

Lemma setAdd_fresh (st : list jsstring) (w : jsstring) :
  ~ In w st -> setAdd st w = st ++ [w].
Proof.
  intros H. unfold setAdd. apply freshIn_true in H. unfold freshIn in H.
  apply negb_true_iff in H. now rewrite H.
Qed.

Lemma fold_setAdd (l st : list jsstring) :
  fold_left setAdd l st = st ++ filter (freshIn st) (firstOccurrences l).
Proof.
  revert st. induction l as [|w r IH]; intros st; simpl.
  - now rewrite app_nil_r.
  - rewrite IH. destruct (freshIn st w) eqn:F.
    + apply freshIn_true in F. rewrite (setAdd_fresh _ _ F).
      now rewrite filter_fresh_snoc, <- app_assoc.
    + apply freshIn_false in F. rewrite (setAdd_known _ _ F).
      now rewrite filter_fresh_known.
Qed.

(** [new Set(words)] holds the distinct words. *)
Lemma newSet_firstOccurrences (l : list jsstring) :
  newSet l = firstOccurrences l.
Proof.
  unfold newSet. rewrite fold_setAdd. simpl.
  apply filter_all. reflexivity.
Qed.

(** ** The frequency map *)

Lemma mapGet_fresh (w : jsstring) (m : freqMap) :
  ~ In w (List.map fst m) -> mapGet w m = None.
Proof.
  induction m as [|[k v] m IH]; simpl; [reflexivity|].
  intros H. destruct (jsstring_eqb_spec w k) as [->|]; [tauto|].
  apply IH. tauto.
Qed.

Lemma mapSet_fresh (w : jsstring) (v : Z) (m : freqMap) :
  ~ In w (List.map fst m) -> mapSet w v m = m ++ [(w, v)].
Proof.
  induction m as [|[k v'] m IH]; simpl; [reflexivity|].
  intros H. destruct (jsstring_eqb_spec w k) as [->|]; [tauto|].
  rewrite IH; tauto.
Qed.

Lemma mapSet_keys (w : jsstring) (v : Z) (m : freqMap) :
  In w (List.map fst m) -> List.map fst (mapSet w v m) = List.map fst m.
Proof.
  induction m as [|[k v'] m IH]; simpl; [tauto|].
  intros H. destruct (jsstring_eqb_spec w k) as [->|N]; [reflexivity|].
  simpl. rewrite IH; [reflexivity|]. destruct H; congruence.
Qed.

Lemma bump_other (w : jsstring) (r : list jsstring) (m : freqMap) :
  ~ In w (List.map fst m) -> List.map (bump (w :: r)) m = List.map (bump r) m.
Proof.
  intros H. apply map_ext_in. intros [k v] Hin. unfold bump. simpl.
  destruct (jsstring_eqb_spec w k) as [->|]; [|reflexivity].
  exfalso. apply H. now apply (in_map fst) in Hin.
Qed.

Lemma countStep_known (w : jsstring) (r : list jsstring) (m : freqMap) :
  NoDup (List.map fst m) -> In w (List.map fst m) ->
  List.map (bump r) (countStep m w) = List.map (bump (w :: r)) m.
Proof.
  unfold countStep. induction m as [|[k v] m IH]; simpl; [tauto|].
  intros ND H. inversion ND as [|? ? Hk ND']; subst.
  destruct (jsstring_eqb_spec w k) as [->|N].
  - simpl. rewrite (bump_other k r m Hk). unfold bump at 1 3. simpl.
    rewrite jsstring_eqb_refl. do 2 f_equal. lia.
  - simpl. rewrite IH; [|exact ND'|destruct H; congruence].
    unfold bump at 1 3. simpl.
    destruct (jsstring_eqb_spec w k); [congruence | reflexivity].
Qed.

Lemma occurrences_other (w : jsstring) (r l : list jsstring) :
  ~ In w l ->
  List.map (fun x => (x, occurrences x (w :: r))) l
  = List.map (fun x => (x, occurrences x r)) l.
Proof.
  intros H. apply map_ext_in. intros x Hx. simpl.
  destruct (jsstring_eqb_spec w x) as [->|]; [tauto | reflexivity].
Qed.

Lemma fold_countStep (l : list jsstring) (m : freqMap) :
  NoDup (List.map fst m) ->
  fold_left countStep l m
  = List.map (bump l) m
    ++ List.map (fun w => (w, occurrences w l))
         (filter (freshIn (List.map fst m)) (firstOccurrences l)).
Proof.
  revert m. induction l as [|w r IH]; intros m ND.
  - simpl. rewrite app_nil_r. symmetry.
    rewrite <- (map_id m) at 2. apply map_ext. intros [k v].
    unfold bump. simpl. now rewrite Z.add_0_r.
  - cbn [fold_left firstOccurrences filter].
    destruct (freshIn (List.map fst m) w) eqn:F.
    + apply freshIn_true in F.
      assert (E : countStep m w = m ++ [(w, 1%Z)]).
      { unfold countStep. now rewrite (mapGet_fresh _ _ F), (mapSet_fresh _ _ _ F). }
      rewrite E, IH.
      * rewrite !map_app. cbn [List.map fst].
        rewrite filter_fresh_snoc, <- app_assoc. cbn [app List.map occurrences].
        rewrite (bump_other _ _ _ F), jsstring_eqb_refl. f_equal.
        unfold bump at 1. cbn [fst snd]. f_equal.
        symmetry. apply occurrences_other.
        rewrite filter_In, filter_In, jsstring_eqb_refl. intros [[_ H] _].
        discriminate H.
      * rewrite map_app. cbn [List.map fst]. apply NoDup_app; auto.
        -- repeat constructor. simpl. tauto.
        -- intros a Ha [<-|[]]. tauto.
    + apply freshIn_false in F. rewrite IH.
      * rewrite (countStep_known _ _ _ ND F). f_equal.
        unfold countStep. rewrite (mapSet_keys _ _ _ F).
        rewrite (filter_fresh_known _ _ _ F).
        symmetry. apply occurrences_other.
        rewrite filter_In. intros [_ H]. apply freshIn_true in H. tauto.
      * unfold countStep. now rewrite (mapSet_keys _ _ _ F).
Qed.

Section Ranking.
Variable unicodeLower : jsstring -> jsstring.

(** The [Map] built by the loop of [topTerms] is the frequency table of
    the tokens. *)
Lemma termFrequencies_table (t : jsstring) :
  termFrequencies unicodeLower t = frequencyTable (tokenize unicodeLower t).
Proof.
  unfold termFrequencies, frequencyTable.
  rewrite fold_countStep by constructor. simpl.
  f_equal. apply filter_all. reflexivity.
Qed.

Lemma frequencyTable_keys (l : list jsstring) :
  List.map fst (frequencyTable l) = firstOccurrences l.
Proof.
  unfold frequencyTable. rewrite map_map. simpl. apply map_id.
Qed.

Lemma topTerms_prefix (t : jsstring) (k : Z) :
  exists m,
    topTerms unicodeLower t k
    = firstn m (List.map fst (sortBy byCountDesc (frequencyTable (tokenize unicodeLower t)))).
Proof.
  unfold topTerms. rewrite termFrequencies_table.
  destruct (slice0_firstn k
              (sortBy byCountDesc (frequencyTable (tokenize unicodeLower t)))) as [m E].
  exists m. now rewrite E, firstn_map.
Qed.

Lemma ranked_keys (l : list jsstring) :
  Permutation (List.map fst (sortBy byCountDesc (frequencyTable l)))
    (firstOccurrences l).
Proof.
  rewrite <- frequencyTable_keys. apply Permutation_map.
  apply (sortBy_perm snd).
Qed.

(** C10: for every text and every [k], the terms returned by [topTerms]
    are pairwise distinct, and every one of them occurs in [tokenize] of
    the text. *)
Theorem topTerms_distinct (t : jsstring) (k : Z) :
  NoDup (topTerms unicodeLower t k)
  /\ Forall (fun w => In w (tokenize unicodeLower t)) (topTerms unicodeLower t k).
Proof.
  destruct (topTerms_prefix t k) as [m E]. rewrite E.
  pose proof (ranked_keys (tokenize unicodeLower t)) as P.
  split.
  - apply firstn_NoDup.
    apply (Permutation_NoDup (Permutation_sym P)), firstOccurrences_NoDup.
  - apply Forall_forall. intros w H. apply firstn_In in H.
    apply firstOccurrences_In. now apply (Permutation_in _ P).
Qed.

(** C5, as amended: for every text and every [k >= 0], [topTerms]
    returns the tokens of the first [k] entries of the token-frequency
    table (one entry per distinct token, with its number of occurrences)
    sorted by count, largest first, entries of equal count staying in the
    order of first occurrence; and [topTerms] of "cat cat cat dog dog
    bird" and 2 is exactly "cat", "dog". *)
Theorem topTerms_ranked (t : jsstring) (k : Z) :
  (0 <= k)%Z ->
  (exists ranked,
      rankedBy snd (frequencyTable (tokenize unicodeLower t)) ranked
      /\ topTerms unicodeLower t k = List.map fst (firstn (Z.to_nat k) ranked))
  /\ topTerms unicodeLower termsExample 2 = [str "cat"; str "dog"].
Proof.
  intros Hk. split; [|vm_compute; reflexivity].
  exists (sortBy byCountDesc (frequencyTable (tokenize unicodeLower t))). split.
  - apply (sortBy_ranked snd).
  - unfold topTerms. now rewrite termFrequencies_table, slice0_nonneg.
Qed.

(** The score of a sentence is the number of its distinct tokens plus
    the smaller of 8 and the number of its tokens. *)
Lemma scoreSentence_score (s : jsstring) :
  Scored.score (scoreSentence unicodeLower s)
  = (Z.of_nat (List.length (firstOccurrences (tokenize unicodeLower s)))
     + Z.min 8 (Z.of_nat (List.length (tokenize unicodeLower s))))%Z.
Proof. unfold scoreSentence. simpl. now rewrite newSet_firstOccurrences. Qed.

Lemma scoreSentence_s (l : list jsstring) :
  List.map Scored.s (List.map (scoreSentence unicodeLower) l) = l.
Proof. rewrite map_map. simpl. apply map_id. Qed.

(** C4, as amended: for every text and every [n >= 0], [keyTakeaways]
    returns at most [min n (number of sentences)] elements, every one of
    them an element of the sentence split of the text, and they are the
    first [n] sentences of the split sorted by score, largest first,
    sentences of equal score staying in their original order, where the
    score of a sentence is the number of its distinct tokens plus
    [min 8 (number of its tokens)]. *)
Theorem keyTakeaways_ranked (text : jsstring) (n : Z) :
  (0 <= n)%Z ->
  (Z.of_nat (List.length (keyTakeaways unicodeLower text n))
   <= Z.min n (Z.of_nat (List.length (sentenceSplit text))))%Z
  /\ Forall (fun s => In s (sentenceSplit text)) (keyTakeaways unicodeLower text n)
  /\ (forall s,
        Scored.score (scoreSentence unicodeLower s)
        = (Z.of_nat (List.length (firstOccurrences (tokenize unicodeLower s)))
           + Z.min 8 (Z.of_nat (List.length (tokenize unicodeLower s))))%Z)
  /\ exists ranked,
       rankedBy Scored.score
         (List.map (scoreSentence unicodeLower) (sentenceSplit text)) ranked
       /\ keyTakeaways unicodeLower text n
          = List.map Scored.s (firstn (Z.to_nat n) ranked).
Proof.
  intros Hn.
  set (S := sentenceSplit text).
  set (scores := List.map (scoreSentence unicodeLower) S).
  set (ranked := sortBy byScoreDesc scores).
  assert (P : Permutation ranked scores) by apply (sortBy_perm Scored.score).
  assert (L : List.length ranked = List.length S).
  { rewrite (Permutation_length P). apply length_map. }
  assert (E : keyTakeaways unicodeLower text n
              = List.map Scored.s (firstn (Z.to_nat n) ranked)).
  { unfold keyTakeaways. fold S. fold scores. fold ranked.
    rewrite slice0_nonneg by lia. f_equal.
    destruct (Z.le_ge_cases n (Z.of_nat (List.length scores))) as [G|G].
    - now rewrite Z.min_l.
    - rewrite Z.min_r, Nat2Z.id by exact G.
      assert (List.length scores = List.length S) by apply length_map.
      rewrite !firstn_all2; [reflexivity | lia | lia]. }
  repeat split.
  - rewrite E, length_map, length_firstn, L. lia.
  - rewrite E. apply Forall_forall. intros s H.
    rewrite <- firstn_map in H. apply firstn_In in H.
    apply (Permutation_in _ (Permutation_map Scored.s P)) in H.
    unfold scores in H. now rewrite scoreSentence_s in H.
  - apply scoreSentence_score.
  - exists ranked. split; [apply (sortBy_ranked Scored.score) | exact E].
Qed.

End Ranking.

Lemma topTerms_ranked_witness :
  (0 <= 2)%Z
  /\ forall unicodeLower,
       (exists ranked,
           rankedBy snd (frequencyTable (tokenize unicodeLower termsExample)) ranked
           /\ topTerms unicodeLower termsExample 2
              = List.map fst (firstn (Z.to_nat 2) ranked))
       /\ topTerms unicodeLower termsExample 2 = [str "cat"; str "dog"].
Proof.
  split; [discriminate|].
  intros unicodeLower. apply (topTerms_ranked unicodeLower termsExample 2).
  discriminate.
Defined.

(** C5, as stated for every [k], fails for a negative [k]: with
    [k = -1], [slice(0, -1)] drops the last entry only, and [topTerms]
    returns two terms, which are not the first [-1] entries of anything. *)
Lemma topTerms_negative_k :
  (forall unicodeLower,
     topTerms unicodeLower termsExample (-1) = [str "cat"; str "dog"])
  /\ (forall unicodeLower,
        topTerms unicodeLower termsExample (-1)
        <> List.map fst
             (firstn (Z.to_nat (-1))
                (sortBy byCountDesc (frequencyTable (tokenize unicodeLower termsExample)))))
  /\ (-1 < Z.of_nat (List.length [str "cat"; str "dog"]))%Z.
Proof.
  split; [|split].
  - intros unicodeLower. vm_compute. reflexivity.
  - intros unicodeLower. vm_compute. discriminate.
  - reflexivity.
Qed.

Lemma keyTakeaways_ranked_witness :
  (0 <= 1)%Z
  /\ forall unicodeLower,
       (Z.of_nat (List.length (keyTakeaways unicodeLower twoSentences 1))
        <= Z.min 1 (Z.of_nat (List.length (sentenceSplit twoSentences))))%Z
       /\ Forall (fun s => In s (sentenceSplit twoSentences))
            (keyTakeaways unicodeLower twoSentences 1)
       /\ (forall s,
             Scored.score (scoreSentence unicodeLower s)
             = (Z.of_nat (List.length (firstOccurrences (tokenize unicodeLower s)))
                + Z.min 8 (Z.of_nat (List.length (tokenize unicodeLower s))))%Z)
       /\ exists ranked,
            rankedBy Scored.score
              (List.map (scoreSentence unicodeLower) (sentenceSplit twoSentences)) ranked
            /\ keyTakeaways unicodeLower twoSentences 1
               = List.map Scored.s (firstn (Z.to_nat 1) ranked).
Proof.
  split; [discriminate|].
  intros unicodeLower.
  apply (keyTakeaways_ranked unicodeLower twoSentences 1). discriminate.
Defined.

(** C4, as stated for every [n], fails for a negative [n]: the text
    "Abc def ghi. Jkl mno pqr." has two sentences, and with [n = -1] the
    call [slice(0, Math.min(-1, 2))] returns one of them, more than
    [min(-1, 2)] elements. *)
Lemma keyTakeaways_negative_n :
  sentenceSplit twoSentences = [str "Abc def ghi."; str "Jkl mno pqr."]
  /\ (forall unicodeLower,
        keyTakeaways unicodeLower twoSentences (-1) = [str "Abc def ghi."])
  /\ (forall unicodeLower,
        ~ (Z.of_nat (List.length (keyTakeaways unicodeLower twoSentences (-1)))
           <= Z.min (-1) (Z.of_nat (List.length (sentenceSplit twoSentences))))%Z).
Proof.
  split; [|split].
  - vm_compute. reflexivity.
  - intros unicodeLower. vm_compute. reflexivity.
  - intros unicodeLower. vm_compute. intros H. now apply H.
Qed.

(** ** The outline *)

Lemma outlineFlush_chunks (chunks : list chunk) (buf : list jsstring) :
  outlineFlush (chunks, buf) = chunks ++ outlineFlush ([], buf).
Proof. destruct buf; simpl; [now rewrite app_nil_r | reflexivity]. Qed.

Lemma outlineStep_chunks (chunks : list chunk) (buf : list jsstring) (line : jsstring) :
  outlineStep (chunks, buf) line
  = (chunks ++ fst (outlineStep ([], buf) line), snd (outlineStep ([], buf) line)).
Proof.
  unfold outlineStep, push. destruct (isHeading line); simpl.
  - destruct buf; simpl; [reflexivity | now rewrite <- app_assoc].
  - now rewrite app_nil_r.
Qed.

(** The chunks already emitted are never touched again. *)
Lemma outlineFrom_chunks (lines : list jsstring) (chunks : list chunk) (buf : list jsstring) :
  outlineFrom (chunks, buf) lines = chunks ++ outlineFrom ([], buf) lines.
Proof.
  unfold outlineFrom. revert chunks buf.
  induction lines as [|l r IH]; intros chunks buf.
  - apply outlineFlush_chunks.
  - cbn [fold_left]. rewrite outlineStep_chunks.
    destruct (outlineStep ([], buf) l) as [c b]. cbn [fst snd].
    rewrite IH, (IH c b). symmetry. apply app_assoc.
Qed.

Lemma outlineFrom_cons (st : list chunk * list jsstring) (l : jsstring) (r : list jsstring) :
  outlineFrom st (l :: r) = outlineFrom (outlineStep st l) r.
Proof. reflexivity. Qed.

Lemma outlineFrom_app (st : list chunk * list jsstring) (a b : list jsstring) :
  outlineFrom st (a ++ b) = outlineFrom (fold_left outlineStep a st) b.
Proof. unfold outlineFrom. now rewrite fold_left_app. Qed.

Lemma outlineFrom_heading (h : jsstring) (rest : list jsstring) (buf : list jsstring) :
  isHeading h = true ->
  outlineFrom ([], buf) (h :: rest)
  = outlineFlush ([], buf) ++ mkChunk (trim h) [] :: chunkLines rest.
Proof.
  intros H. rewrite outlineFrom_cons. unfold outlineStep. rewrite H.
  rewrite outlineFrom_chunks. unfold chunkLines.
  rewrite <- app_assoc. destruct buf; reflexivity.
Qed.

Lemma outlineFrom_body (bs rest : list jsstring) (buf : list jsstring) :
  forallb (fun l => negb (isHeading l)) bs = true ->
  outlineFrom ([], buf) (bs ++ rest) = outlineFrom ([], buf ++ List.map trim bs) rest.
Proof.
  revert buf. induction bs as [|l bs IH]; intros buf H.
  - simpl. now rewrite app_nil_r.
  - simpl in H. apply andb_prop in H as [H1 H2]. apply negb_true_iff in H1.
    cbn [app List.map]. rewrite outlineFrom_cons. unfold outlineStep. rewrite H1.
    rewrite (IH _ H2), <- app_assoc. reflexivity.
Qed.

Lemma outlineFrom_boundary (rest : list jsstring) (buf : list jsstring) :
  headingOrEnd rest = true ->
  outlineFrom ([], buf) rest = outlineFlush ([], buf) ++ chunkLines rest.
Proof.
  destruct rest as [|h r]; simpl; intros H.
  - unfold chunkLines, outlineFrom. simpl. now rewrite app_nil_r.
  - rewrite (outlineFrom_heading h r buf H).
    unfold chunkLines at 2. now rewrite (outlineFrom_heading h r [] H).
Qed.

Lemma outlineFlush_section (bs : list jsstring) :
  outlineFlush ([], List.map trim bs) = sectionOf bs.
Proof. destruct bs; reflexivity. Qed.

Lemma chunkLines_app (pre rest : list jsstring) :
  headingOrEnd rest = true ->
  chunkLines (pre ++ rest) = chunkLines pre ++ chunkLines rest.
Proof.
  intros H. unfold chunkLines at 1 2. rewrite outlineFrom_app.
  unfold outlineFrom at 2.
  destruct (fold_left outlineStep pre ([], [])) as [c b].
  rewrite outlineFrom_chunks, (outlineFrom_boundary _ _ H), app_assoc.
  now rewrite <- outlineFlush_chunks.
Qed.

(** C3: [chunkOutline] emits a heading and the body that follows it as
    separate entries in document order: a heading line [h] becomes a chunk
    with the empty body, and the body lines [bs] after it, up to the next
    heading or the end, become the next chunk, labelled "Section" (no
    chunk when there is no body line); and on the text "Introduction",
    "Some body text here.", "More body.", blank, "Conclusion", "Final
    remarks." it produces exactly the four chunks of the specification. *)
Theorem chunkOutline_sections :
  (forall (pre : list jsstring) (h : jsstring) (bs rest : list jsstring),
      isHeading h = true ->
      forallb (fun l => negb (isHeading l)) bs = true ->
      headingOrEnd rest = true ->
      chunkLines (pre ++ h :: bs ++ rest)
      = chunkLines pre ++ mkChunk (trim h) [] :: sectionOf bs ++ chunkLines rest)
  /\ chunkOutline outlineExample
     = [ mkChunk (str "Introduction") [];
         mkChunk (str "Section") (str "Some body text here. More body.");
         mkChunk (str "Conclusion") [];
         mkChunk (str "Section") (str "Final remarks.") ].
Proof.
  split; [|vm_compute; reflexivity].
  intros pre h bs rest Hh Hbs Hrest.
  rewrite chunkLines_app by exact Hh. f_equal.
  unfold chunkLines at 1. rewrite (outlineFrom_heading _ _ _ Hh).
  cbn [outlineFlush app]. f_equal.
  unfold chunkLines at 1.
  rewrite (outlineFrom_body _ _ _ Hbs), (outlineFrom_boundary _ _ Hrest).
  cbn [app]. now rewrite outlineFlush_section.
Qed.

Lemma chunkOutline_sections_witness :
  isHeading (str "Introduction") = true
  /\ forallb (fun l => negb (isHeading l)) [str "Some body text here."; str "More body."] = true
  /\ headingOrEnd [str "Conclusion"; str "Final remarks."] = true
  /\ chunkLines
       ([] ++ str "Introduction"
           :: [str "Some body text here."; str "More body."]
           ++ [str "Conclusion"; str "Final remarks."])
     = chunkLines []
       ++ mkChunk (trim (str "Introduction")) []
          :: sectionOf [str "Some body text here."; str "More body."]
          ++ chunkLines [str "Conclusion"; str "Final remarks."].
Proof.
  split; [reflexivity|]. split; [reflexivity|]. split; [reflexivity|].
  apply (proj1 chunkOutline_sections); reflexivity.
Defined.

(** ** Lines *)

Lemma splitRuns_pieces (p : char -> bool) (s : jsstring) :
  Forall (fun piece => forallb (fun c => negb (p c)) piece = true) (splitRuns p s).
Proof.
  induction s as [|c t IH]; simpl; [repeat constructor|].
  destruct (p c) eqn:E.
  - destruct (startsWith p t); [exact IH | now constructor].
  - destruct (splitRuns p t) as [|piece rest]; [repeat constructor; simpl; now rewrite E|].
    inversion IH as [|? ? H1 H2]; subst. constructor; [|exact H2].
    simpl. now rewrite E, H1.
Qed.

Lemma splitAfterTerminator_pieces (q : char -> bool) (a b : bool) (s : jsstring) :
  forallb q s = true ->
  Forall (fun piece => forallb q piece = true) (splitAfterTerminator a b s).
Proof.
  revert a b. induction s as [|c t IH]; intros a b H; simpl; [repeat constructor|].
  simpl in H. apply andb_prop in H as [H1 H2].
  destruct (isWhitespace c && (b || a)).
  - destruct (startsWith isWhitespace t); [auto | constructor; auto].
  - specialize (IH (isTerminator c) false H2).
    destruct (splitAfterTerminator (isTerminator c) false t) as [|piece rest];
      [repeat constructor; simpl; now rewrite H1|].
    inversion IH as [|? ? H3 H4]; subst. constructor; [|exact H4].
    simpl. now rewrite H1, H3.
Qed.

Lemma oneLine_app (a b : jsstring) :
  oneLine (a ++ b) = oneLine a && oneLine b.
Proof. apply forallb_app. Qed.

Lemma oneLine_trim (s : jsstring) : oneLine s = true -> oneLine (trim s) = true.
Proof.
  intros H. destruct (trim_infix s) as (a & b & E). rewrite E in H.
  rewrite !oneLine_app in H. apply andb_prop in H as [_ H].
  now apply andb_prop in H as [H _].
Qed.

Lemma oneLine_dropWhile (p : char -> bool) (s : jsstring) :
  oneLine s = true -> oneLine (dropWhile p s) = true.
Proof.
  intros H. rewrite <- (takeWhile_dropWhile p s), oneLine_app in H.
  now apply andb_prop in H as [_ H].
Qed.

Lemma oneLine_firstn (m : nat) (s : jsstring) :
  oneLine s = true -> oneLine (firstn m s) = true.
Proof.
  intros H. rewrite <- (firstn_skipn m s), oneLine_app in H.
  now apply andb_prop in H as [H _].
Qed.

Lemma oneLine_join (sep : jsstring) (l : list jsstring) :
  oneLine sep = true -> Forall (fun x => oneLine x = true) l ->
  oneLine (join sep l) = true.
Proof.
  intros Hs H. induction H as [|x l Hx Hl IH]; [reflexivity|].
  destruct l as [|y l]; [exact Hx|].
  change (join sep (x :: y :: l)) with (x ++ sep ++ join sep (y :: l)).
  now rewrite !oneLine_app, Hx, Hs, IH.
Qed.

Lemma oneLine_settled (s : jsstring) :
  settled isWhitespace s = true -> oneLine s = true.
Proof.
  induction s as [|c t IH]; simpl; [reflexivity|].
  intros H. apply andb_prop in H as [H1 H2]. rewrite (IH H2), andb_true_r.
  unfold isNewline. destruct (N.eqb_spec c 10) as [->|]; [|reflexivity].
  discriminate H1.
Qed.

Lemma oneLine_no_whitespace (s : jsstring) :
  forallb (fun c => negb (isWhitespace c)) s = true -> oneLine s = true.
Proof.
  unfold oneLine. induction s as [|c t IH]; simpl; [reflexivity|].
  intros H. apply andb_prop in H as [H1 H2]. rewrite (IH H2), andb_true_r.
  unfold isNewline. destruct (N.eqb_spec c 10) as [->|]; [|reflexivity].
  discriminate H1.
Qed.

Lemma oneLine_orNotes (x : jsstring) : oneLine x = true -> oneLine (orNotes x) = true.
Proof. destruct x; auto. Qed.

Lemma oneLine_capitalize (w : jsstring) :
  oneLine w = true -> oneLine (capitalize w) = true.
Proof.
  destruct w as [|c r]; simpl; [auto|].
  intros H. apply andb_prop in H as [H1 H2]. rewrite H2, andb_true_r.
  unfold upperAscii. destruct (isLower c) eqn:E; [|exact H1].
  unfold isLower in E. apply andb_prop in E as [E _]. apply N.leb_le in E.
  unfold isNewline. destruct (N.eqb_spec (c - 32) 10); [lia | reflexivity].
Qed.

Lemma sentenceSplit_oneLine (t : jsstring) :
  Forall (fun s => oneLine s = true) (sentenceSplit t).
Proof.
  unfold sentenceSplit. apply Forall_forall. intros s H.
  apply filter_In in H as [H _]. revert s H. apply Forall_forall.
  apply splitAfterTerminator_pieces. apply oneLine_settled.
  now apply settled_replaceRuns.
Qed.

Lemma lines_oneLine (s : jsstring) :
  Forall (fun l => oneLine l = true) (splitRuns isNewline s).
Proof. apply splitRuns_pieces. Qed.

Lemma outlineFlush_oneLine (chunks : list chunk) (buf : list jsstring) :
  Forall chunkOneLine chunks -> Forall (fun l => oneLine l = true) buf ->
  Forall chunkOneLine (outlineFlush (chunks, buf)).
Proof.
  intros Hc Hb. destruct buf as [|x buf]; [exact Hc|].
  cbn [outlineFlush]. unfold push. apply Forall_app. split; [exact Hc|].
  constructor; [|constructor]. split; [reflexivity|].
  apply (oneLine_join [SPACE] (x :: buf)); [reflexivity | exact Hb].
Qed.

Lemma outlineFrom_oneLine (lines : list jsstring) (chunks : list chunk) (buf : list jsstring) :
  Forall (fun l => oneLine l = true) lines ->
  Forall chunkOneLine chunks -> Forall (fun l => oneLine l = true) buf ->
  Forall chunkOneLine (outlineFrom (chunks, buf) lines).
Proof.
  intros H. revert chunks buf. induction H as [|l r Hl Hr IH]; intros chunks buf Hc Hb.
  - now apply outlineFlush_oneLine.
  - rewrite outlineFrom_cons. unfold outlineStep. destruct (isHeading l).
    + apply IH; [|constructor]. apply Forall_app. split.
      * now apply (outlineFlush_oneLine chunks buf).
      * constructor; [|constructor]. split; [now apply oneLine_trim | reflexivity].
    + apply IH; [exact Hc|]. apply Forall_app. split; [exact Hb|].
      constructor; [now apply oneLine_trim | constructor].
Qed.

Lemma chunkOutline_oneLine (t : jsstring) : Forall chunkOneLine (chunkOutline t).
Proof.
  unfold chunkOutline, chunkLines.
  apply outlineFrom_oneLine; [apply lines_oneLine | constructor | constructor].
Qed.

Section Lines.
Variable unicodeLower : jsstring -> jsstring.

Lemma tokenize_oneLine (t : jsstring) :
  Forall (fun w => oneLine w = true) (tokenize unicodeLower t).
Proof.
  unfold tokenize. apply Forall_forall. intros w H.
  apply filter_In in H as [H _]. apply oneLine_no_whitespace.
  revert w H. apply Forall_forall. apply splitRuns_pieces.
Qed.

Lemma topTerms_In (t : jsstring) (k : Z) (w : jsstring) :
  In w (topTerms unicodeLower t k) -> In w (tokenize unicodeLower t).
Proof.
  destruct (topTerms_prefix unicodeLower t k) as [m E]. rewrite E.
  intros H. apply firstn_In in H. apply firstOccurrences_In.
  now apply (Permutation_in _ (ranked_keys _)).
Qed.

Lemma topTerms_oneLine (t : jsstring) (k : Z) :
  Forall (fun w => oneLine w = true) (topTerms unicodeLower t k).
Proof.
  apply Forall_forall. intros w H. apply topTerms_In in H.
  revert w H. apply Forall_forall. apply tokenize_oneLine.
Qed.

Lemma keyTakeaways_In (t : jsstring) (n : Z) (s : jsstring) :
  In s (keyTakeaways unicodeLower t n) -> In s (sentenceSplit t).
Proof.
  unfold keyTakeaways.
  destruct (slice0_firstn
              (Z.min n (Z.of_nat (List.length (List.map (scoreSentence unicodeLower)
                                                 (sentenceSplit t)))))
              (sortBy byScoreDesc (List.map (scoreSentence unicodeLower) (sentenceSplit t))))
    as [m E].
  rewrite E, <- firstn_map. intros H. apply firstn_In in H.
  apply (Permutation_in _ (Permutation_map Scored.s (sortBy_perm Scored.score _))) in H.
  now rewrite scoreSentence_s in H.
Qed.

Lemma keyTakeaways_oneLine (t : jsstring) (n : Z) :
  Forall (fun s => oneLine s = true) (keyTakeaways unicodeLower t n).
Proof.
  apply Forall_forall. intros s H. apply keyTakeaways_In in H.
  revert s H. apply Forall_forall. apply sentenceSplit_oneLine.
Qed.

Lemma firstLineOf_oneLine (t : jsstring) : oneLine (firstLineOf t) = true.
Proof.
  unfold firstLineOf. apply oneLine_orNotes.
  pose proof (lines_oneLine (cleanText t)) as H.
  destruct (splitRuns isNewline (cleanText t)); [reflexivity|].
  now inversion H.
Qed.

Lemma guessTitle_oneLine (t : jsstring) : oneLine (guessTitle unicodeLower t) = true.
Proof.
  unfold guessTitle. fold (firstLineOf t).
  destruct (List.length (firstLineOf t) <? 80)%nat.
  - apply oneLine_dropWhile, firstLineOf_oneLine.
  - apply oneLine_orNotes, oneLine_join; [reflexivity|].
    apply Forall_forall. intros w H. apply in_map_iff in H as (x & <- & H).
    apply oneLine_capitalize.
    revert x H. apply Forall_forall. apply topTerms_oneLine.
Qed.

End Lines.

(** ** The Markdown document *)

Lemma join_cons (sep x : jsstring) (l : list jsstring) :
  join sep (x :: l) = x ++ List.concat (List.map (fun y => sep ++ y) l).
Proof.
  revert x. induction l as [|y l IH]; intros x.
  - simpl. now rewrite app_nil_r.
  - change (join sep (x :: y :: l)) with (x ++ sep ++ join sep (y :: l)).
    rewrite IH. simpl. now rewrite <- app_assoc.
Qed.

(** C9: for every text the output of [toMarkdown] begins with "# " and
    the guessed title, and continues with the headers "## Key Takeaways",
    "## Outline" and "## Terms" in that order, each after an empty line;
    under the first there is one line "- " and the takeaway for each
    takeaway, under the second one line "- **heading** " followed by an em
    dash, a space and the first 220 characters of the body for each chunk
    of the outline, and under the third the single line "> " and the terms
    joined by ", ".  The title, the takeaways, the headings and bodies of
    the outline and the terms hold no newline, so each of these is one
    line of the document. *)
Theorem toMarkdown_layout (unicodeLower : jsstring -> jsstring) (t : jsstring) :
  toMarkdown unicodeLower t
  = str "# " ++ guessTitle unicodeLower t
    ++ [LF]
    ++ [LF] ++ str "## Key Takeaways"
    ++ List.concat (List.map (fun s => [LF] ++ str "- " ++ s) (keyTakeaways unicodeLower t 6))
    ++ [LF]
    ++ [LF] ++ str "## Outline"
    ++ List.concat (List.map
                 (fun c => [LF] ++ str "- **" ++ heading c ++ str "** "
                                ++ [EMDASH; SPACE] ++ firstn 220 (body c))
                 (chunkOutline t))
    ++ [LF]
    ++ [LF] ++ str "## Terms"
    ++ [LF] ++ str "> " ++ join (str ", ") (topTerms unicodeLower t 12)
  /\ oneLine (guessTitle unicodeLower t) = true
  /\ Forall (fun s => oneLine s = true) (keyTakeaways unicodeLower t 6)
  /\ Forall (fun c => oneLine (heading c) = true
                      /\ oneLine (firstn 220 (body c)) = true) (chunkOutline t)
  /\ oneLine (join (str ", ") (topTerms unicodeLower t 12)) = true.
Proof.
  split; [|split; [|split; [|split]]].
  - unfold toMarkdown. etransitivity.
    { apply (join_cons [LF] (str "# " ++ guessTitle unicodeLower t)
               ([[]; str "## Key Takeaways"]
                ++ List.map takeawayLine (keyTakeaways unicodeLower t 6)
                ++ [[]; str "## Outline"]
                ++ List.map outlineLine (chunkOutline t)
                ++ [[]; str "## Terms";
                    str "> " ++ join (str ", ") (topTerms unicodeLower t 12)])). }
    rewrite !map_app, !concat_app, !map_map.
    unfold takeawayLine, outlineLine.
    cbn [List.map List.concat]. rewrite !app_nil_r, <- !app_assoc.
    reflexivity.
  - apply guessTitle_oneLine.
  - apply keyTakeaways_oneLine.
  - eapply Forall_impl; [|apply chunkOutline_oneLine].
    intros c [H1 H2]. split; [exact H1 | now apply oneLine_firstn].
  - apply oneLine_join; [reflexivity | apply topTerms_oneLine].
Qed.

(** ** The empty title and the empty input *)

Lemma dropWhile_nil (p : char -> bool) (s : jsstring) :
  dropWhile p s = [] <-> forallb p s = true.
Proof.
  induction s as [|c t IH]; simpl; [tauto|].
  destruct (p c); simpl; [exact IH|]. split; discriminate.
Qed.

Lemma orNotes_nonempty (x : jsstring) : orNotes x <> [].
Proof. destruct x; discriminate. Qed.

(** C1 at the failing input: the first line "-" is shorter than 80
    characters and consists of prefix characters only, so the title
    returned is the empty string; so is it for "1.".  In general the
    title is empty exactly when the first line is shorter than 80
    characters and made of hyphens, bullets, digits, dots and whitespace
    only. *)
Theorem guessTitle_empty_title (unicodeLower : jsstring -> jsstring) :
  guessTitle unicodeLower (str "-") = []
  /\ guessTitle unicodeLower (str "1.") = []
  /\ forall text,
       guessTitle unicodeLower text = []
       <-> ((List.length (firstLineOf text) <? 80)%nat = true
            /\ forallb isTitlePrefix (firstLineOf text) = true).
Proof.
  split; [reflexivity|]. split; [reflexivity|].
  intros text. unfold guessTitle. fold (firstLineOf text).
  destruct (List.length (firstLineOf text) <? 80)%nat.
  - rewrite dropWhile_nil. tauto.
  - split; [intros H; now apply orNotes_nonempty in H | intros [H _]; discriminate H].
Qed.

(** C2 at the failing input: on the empty string [keyTakeaways] and
    [topTerms] return the empty sequence and [guessTitle] returns "Notes",
    but [chunkOutline] returns one chunk, labelled "Section", with the
    empty body: the split of the empty text is one empty line, which is
    buffered as a body line. *)
Theorem empty_input (unicodeLower : jsstring -> jsstring) (n k : Z) :
  keyTakeaways unicodeLower [] n = []
  /\ topTerms unicodeLower [] k = []
  /\ guessTitle unicodeLower [] = str "Notes"
  /\ chunkOutline [] = [mkChunk (str "Section") []].
Proof.
  repeat split.
  - unfold keyTakeaways. change (sentenceSplit []) with (@nil jsstring).
    unfold slice0. simpl. now rewrite firstn_nil.
  - unfold topTerms, termFrequencies.
    change (tokenize unicodeLower []) with (@nil jsstring).
    unfold slice0. simpl. now rewrite firstn_nil.
Qed.

(** * Further properties of the pipeline *)

(** ** What [cleanText] keeps and removes *)

Lemma length_dropWhile (p : char -> bool) (s : jsstring) :
  (List.length (dropWhile p s) <= List.length s)%nat.
Proof.
  induction s as [|c t IH]; simpl; [lia|]. destruct (p c); simpl; lia.
Qed.

Lemma length_trim (s : jsstring) : (List.length (trim s) <= List.length s)%nat.
Proof.
  unfold trim, trimEnd, trimStart. rewrite length_rev.
  etransitivity; [apply length_dropWhile|]. rewrite length_rev.
  apply length_dropWhile.
Qed.

Lemma length_replaceRuns (p : char -> bool) (s : jsstring) :
  (List.length (replaceRuns p [SPACE] s) <= List.length s)%nat.
Proof.
  induction s as [|c t IH]; simpl; [lia|].
  destruct (p c); [destruct (startsWith p t)|]; simpl; lia.
Qed.

Lemma length_squeezeNewlines (s : jsstring) :
  (List.length (squeezeNewlines s) <= List.length s)%nat.
Proof.
  induction s as [|c t IH]; simpl; [lia|].
  destruct (isNewline c && twoNewlines t); simpl; lia.
Qed.

(** X1: [cleanText] never lengthens a text. *)
Theorem cleanText_length (t : jsstring) :
  (List.length (cleanText t) <= List.length t)%nat.
Proof.
  unfold cleanText.
  etransitivity; [apply length_trim|].
  etransitivity; [apply length_squeezeNewlines|].
  etransitivity; [apply length_replaceRuns|].
  now rewrite length_map.
Qed.

Lemma visible_app (a b : jsstring) : visible (a ++ b) = visible a ++ visible b.
Proof. apply filter_app. Qed.

Lemma visible_whitespace (s : jsstring) :
  forallb isWhitespace s = true -> visible s = [].
Proof.
  induction s as [|c t IH]; simpl; [reflexivity|].
  intros H. apply andb_prop in H as [H1 H2]. now rewrite H1, (IH H2).
Qed.

Lemma visible_nil (s : jsstring) :
  visible s = [] -> forallb isWhitespace s = true.
Proof.
  induction s as [|c t IH]; simpl; [reflexivity|].
  destruct (isWhitespace c); simpl; [exact IH | discriminate].
Qed.

Lemma takeWhile_all (p : char -> bool) (s : jsstring) :
  forallb p (takeWhile p s) = true.
Proof.
  induction s as [|c t IH]; simpl; [reflexivity|].
  destruct (p c) eqn:E; simpl; [now rewrite E | reflexivity].
Qed.

Lemma visible_map_nbsp (s : jsstring) :
  visible (List.map nbspToSpace s) = visible s.
Proof.
  induction s as [|c t IH]; simpl; [reflexivity|].
  rewrite isWhitespace_nbspToSpace, IH.
  destruct (isWhitespace c) eqn:E; simpl; [reflexivity|].
  unfold nbspToSpace. destruct (N.eqb_spec c NBSP) as [->|]; [discriminate E | reflexivity].
Qed.

Lemma visible_replaceRuns (p : char -> bool) (s : jsstring) :
  (forall c, p c = true -> isWhitespace c = true) ->
  visible (replaceRuns p [SPACE] s) = visible s.
Proof.
  intros Hp. induction s as [|c t IH]; simpl; [reflexivity|].
  destruct (p c) eqn:E.
  - rewrite (Hp _ E). simpl. destruct (startsWith p t); simpl; exact IH.
  - simpl. now rewrite IH.
Qed.

Lemma visible_squeezeNewlines (s : jsstring) :
  visible (squeezeNewlines s) = visible s.
Proof.
  induction s as [|c t IH]; simpl; [reflexivity|].
  destruct (isNewline c && twoNewlines t) eqn:E; simpl; [|now rewrite IH].
  apply andb_prop in E as [E _]. unfold isNewline in E.
  apply N.eqb_eq in E. subst c. simpl. exact IH.
Qed.

Lemma forallb_rev_eq (p : char -> bool) (s : jsstring) :
  forallb p (rev s) = forallb p s.
Proof.
  induction s as [|c t IH]; simpl; [reflexivity|].
  rewrite forallb_app, IH. simpl. rewrite andb_true_r. apply andb_comm.
Qed.

Lemma visible_trim (s : jsstring) : visible (trim s) = visible s.
Proof.
  unfold trim.
  rewrite (trimStart_suffix s) at 2.
  rewrite (trimEnd_prefix (trimStart s)) at 2.
  rewrite !visible_app.
  rewrite (visible_whitespace (takeWhile isWhitespace s)) by apply takeWhile_all.
  rewrite (visible_whitespace (rev (takeWhile isWhitespace (rev (trimStart s)))))
    by (rewrite forallb_rev_eq; apply takeWhile_all).
  now rewrite app_nil_r.
Qed.

Lemma cleanText_visible_eq (t : jsstring) : visible (cleanText t) = visible t.
Proof.
  unfold cleanText.
  rewrite visible_trim, visible_squeezeNewlines, visible_replaceRuns, visible_map_nbsp;
    [reflexivity | exact isTabOrSpace_whitespace].
Qed.

(** X2: [cleanText] changes whitespace only: the characters that are not
    whitespace are those of the input, in the same order. *)
Theorem cleanText_visible (t : jsstring) : visible (cleanText t) = visible t.
Proof.
  unfold cleanText.
  rewrite visible_trim, visible_squeezeNewlines, visible_replaceRuns, visible_map_nbsp;
    [reflexivity | exact isTabOrSpace_whitespace].
Qed.

Lemma cleanText_trimmed (t : jsstring) :
  startsWith isWhitespace (cleanText t) = false.
Proof.
  destruct (cleanText_clean t) as (_ & _ & _ & H). rewrite <- H. unfold trim.
  apply startsWith_app with (b := rev (takeWhile isWhitespace (rev (trimStart (cleanText t))))).
  rewrite <- trimEnd_prefix. apply startsWith_dropWhile.
Qed.

Lemma cleanText_nil (t : jsstring) :
  cleanText t = [] <-> forallb isWhitespace t = true.
Proof.
  split; intros H.
  - apply visible_nil. rewrite <- cleanText_visible_eq, H. reflexivity.
  - apply visible_whitespace in H. rewrite <- cleanText_visible_eq in H.
    apply visible_nil in H. pose proof (cleanText_trimmed t) as T.
    destruct (cleanText t) as [|c r]; [reflexivity|].
    simpl in H, T. rewrite T in H. discriminate H.
Qed.

(** X3: [cleanText] returns the empty string exactly on the texts that
    consist of whitespace only (the empty text among them). *)
Theorem cleanText_blank (t : jsstring) :
  cleanText t = [] <-> forallb isWhitespace t = true.
Proof.
  split; intros H.
  - apply visible_nil. rewrite <- cleanText_visible_eq, H. reflexivity.
  - apply visible_whitespace in H. rewrite <- cleanText_visible_eq in H.
    apply visible_nil in H. pose proof (cleanText_trimmed t) as T.
    destruct (cleanText t) as [|c r]; [reflexivity|].
    simpl in H, T. rewrite T in H. discriminate H.
Qed.

Lemma cleanText_fixed (t : jsstring) : cleanText (cleanText t) = cleanText t.
Proof.
  destruct (cleanText_clean t) as (H1 & H2 & H3 & H4).
  unfold cleanText at 1.
  now rewrite (map_noNbsp _ H1), (replaceRuns_settled _ _ H2),
    (squeezeNewlines_noTriple _ H3).
Qed.

Section Normalized.
Variable unicodeLower : jsstring -> jsstring.

Lemma tokenize_cleanText (t : jsstring) :
  tokenize unicodeLower (cleanText t) = tokenize unicodeLower t.
Proof. unfold tokenize. now rewrite cleanText_fixed. Qed.

Lemma sentenceSplit_cleanText (t : jsstring) :
  sentenceSplit (cleanText t) = sentenceSplit t.
Proof. unfold sentenceSplit. now rewrite cleanText_fixed. Qed.

Lemma topTerms_cleanText (t : jsstring) (k : Z) :
  topTerms unicodeLower (cleanText t) k = topTerms unicodeLower t k.
Proof. unfold topTerms, termFrequencies. now rewrite tokenize_cleanText. Qed.

(** X4: every stage gives the same result on a text and on its
    normalization, so normalizing a text before it enters the pipeline, as
    the two extraction functions do, changes nothing of the notes. *)
Theorem pipeline_cleanText (t : jsstring) (k n : Z) :
  tokenize unicodeLower (cleanText t) = tokenize unicodeLower t
  /\ sentenceSplit (cleanText t) = sentenceSplit t
  /\ topTerms unicodeLower (cleanText t) k = topTerms unicodeLower t k
  /\ chunkOutline (cleanText t) = chunkOutline t
  /\ keyTakeaways unicodeLower (cleanText t) n = keyTakeaways unicodeLower t n
  /\ guessTitle unicodeLower (cleanText t) = guessTitle unicodeLower t
  /\ toMarkdown unicodeLower (cleanText t) = toMarkdown unicodeLower t.
Proof.
  assert (C : chunkOutline (cleanText t) = chunkOutline t)
    by (unfold chunkOutline; now rewrite cleanText_fixed).
  assert (K : forall m, keyTakeaways unicodeLower (cleanText t) m
                        = keyTakeaways unicodeLower t m)
    by (intros m; unfold keyTakeaways; now rewrite sentenceSplit_cleanText).
  assert (G : guessTitle unicodeLower (cleanText t) = guessTitle unicodeLower t)
    by (unfold guessTitle; now rewrite cleanText_fixed, topTerms_cleanText).
  split; [apply tokenize_cleanText|]. split; [apply sentenceSplit_cleanText|].
  split; [apply topTerms_cleanText|]. split; [exact C|]. split; [apply K|].
  split; [exact G|].
  unfold toMarkdown. now rewrite G, K, C, topTerms_cleanText.
Qed.

End Normalized.

(** ** The alphabet of the tokens *)

Lemma splitRuns_sub (q p : char -> bool) (s : jsstring) :
  forallb q s = true ->
  Forall (fun piece => forallb q piece = true) (splitRuns p s).
Proof.
  induction s as [|c t IH]; simpl; intros H; [repeat constructor|].
  apply andb_prop in H as [H1 H2]. specialize (IH H2).
  destruct (p c).
  - destruct (startsWith p t); [exact IH | now constructor].
  - destruct (splitRuns p t) as [|piece rest]; [repeat constructor; simpl; now rewrite H1|].
    inversion IH as [|? ? H3 H4]; subst. constructor; [|exact H4].
    simpl. now rewrite H1, H3.
Qed.

Lemma forallb_and (q1 q2 : char -> bool) (s : jsstring) :
  forallb q1 s = true -> forallb q2 s = true ->
  forallb (fun c => q1 c && q2 c) s = true.
Proof.
  induction s as [|c t IH]; simpl; [reflexivity|].
  intros H1 H2. apply andb_prop in H1 as [A1 B1]. apply andb_prop in H2 as [A2 B2].
  now rewrite A1, A2, IH.
Qed.

Lemma forallb_weaken (q1 q2 : char -> bool) (s : jsstring) :
  (forall c, q1 c = true -> q2 c = true) ->
  forallb q1 s = true -> forallb q2 s = true.
Proof.
  intros Hq. induction s as [|c t IH]; simpl; [reflexivity|].
  intros H. apply andb_prop in H as [A B]. now rewrite (Hq _ A), IH.
Qed.

Lemma blankNonToken_tokenChar (s : jsstring) :
  forallb isTokenChar (List.map blankNonToken s) = true.
Proof.
  induction s as [|c t IH]; simpl; [reflexivity|].
  rewrite IH, andb_true_r. unfold blankNonToken.
  destruct (isTokenChar c) eqn:E; [exact E | reflexivity].
Qed.

Lemma wordChar_of_tokenChar (c : char) :
  isTokenChar c && negb (isWhitespace c) = true -> isWordChar c = true.
Proof.
  unfold isTokenChar, isWordChar. intros H. apply andb_prop in H as [H1 H2].
  apply negb_true_iff in H2. rewrite H2, orb_false_r in H1. exact H1.
Qed.

(** The pieces of a blanked text that [tokenize] filters. *)
Lemma token_pieces (q : char -> bool) (s : jsstring) :
  forallb q (List.map blankNonToken s) = true ->
  Forall (fun w => forallb (fun c => (q c && isTokenChar c) && negb (isWhitespace c)) w = true)
    (splitRuns isWhitespace (List.map blankNonToken s)).
Proof.
  intros Hq.
  pose proof (splitRuns_sub (fun c => q c && isTokenChar c) isWhitespace
                (List.map blankNonToken s)
                (forallb_and _ _ _ Hq (blankNonToken_tokenChar s))) as H1.
  pose proof (splitRuns_pieces isWhitespace (List.map blankNonToken s)) as H2.
  apply Forall_forall. intros w Hw.
  apply forallb_and.
  - now apply (proj1 (Forall_forall _ _) H1).
  - now apply (proj1 (Forall_forall _ _) H2).
Qed.

Lemma forallb_map_eq (q : char -> bool) (f : char -> char) (s : jsstring) :
  forallb q (List.map f s) = forallb (fun c => q (f c)) s.
Proof. induction s as [|c t IH]; simpl; [reflexivity | now rewrite IH]. Qed.

Lemma forallb_true (s : jsstring) : forallb (fun _ => true) s = true.
Proof. induction s; simpl; auto. Qed.

(** X5: every token is made of ASCII letters, digits and hyphens only,
    whatever the text and whatever lower-casing does outside ASCII. *)
Theorem tokenize_alphabet (unicodeLower : jsstring -> jsstring) (t : jsstring) :
  Forall (fun w => forallb isWordChar w = true) (tokenize unicodeLower t).
Proof.
  apply Forall_forall. intros w H. unfold tokenize in H.
  apply filter_In in H as [H _].
  pose proof (token_pieces (fun _ => true)
                (toLowerCase unicodeLower (cleanText t)) (forallb_true _)) as P.
  apply (proj1 (Forall_forall _ _) P) in H.
  revert H. apply forallb_weaken. intros c Hc.
  apply wordChar_of_tokenChar. simpl in Hc. exact Hc.
Qed.

Lemma isAscii_not_nbsp (c : char) : isAscii c = true -> nbspToSpace c = c.
Proof.
  unfold isAscii, nbspToSpace. intros H. apply N.ltb_lt in H.
  destruct (N.eqb_spec c NBSP) as [->|]; [discriminate H | reflexivity].
Qed.

Lemma forallb_replaceRuns (q p : char -> bool) (s : jsstring) :
  q SPACE = true -> forallb q s = true ->
  forallb q (replaceRuns p [SPACE] s) = true.
Proof.
  intros Hs. induction s as [|c t IH]; simpl; [reflexivity|].
  intros H. apply andb_prop in H as [H1 H2].
  destruct (p c); [destruct (startsWith p t)|]; simpl; auto.
  - now rewrite Hs, IH.
  - now rewrite H1, IH.
Qed.

Lemma forallb_squeezeNewlines (q : char -> bool) (s : jsstring) :
  forallb q s = true -> forallb q (squeezeNewlines s) = true.
Proof.
  induction s as [|c t IH]; simpl; [reflexivity|].
  intros H. apply andb_prop in H as [H1 H2].
  destruct (isNewline c && twoNewlines t); simpl; auto. now rewrite H1, IH.
Qed.

Lemma forallb_trim (q : char -> bool) (s : jsstring) :
  forallb q s = true -> forallb q (trim s) = true.
Proof.
  intros H. destruct (trim_infix s) as (a & b & E). rewrite E in H.
  rewrite !forallb_app in H. apply andb_prop in H as [_ H].
  now apply andb_prop in H as [H _].
Qed.

Lemma cleanText_ascii (t : jsstring) :
  forallb isAscii t = true -> forallb isAscii (cleanText t) = true.
Proof.
  intros H. unfold cleanText.
  apply forallb_trim, forallb_squeezeNewlines, forallb_replaceRuns; [reflexivity|].
  rewrite forallb_map_eq. revert H. apply forallb_weaken.
  intros c Hc. now rewrite (isAscii_not_nbsp _ Hc).
Qed.

Lemma lowerAscii_not_upper (c : char) : isUpper (lowerAscii c) = false.
Proof.
  unfold lowerAscii. destruct (isUpper c) eqn:E; [|exact E].
  unfold isUpper in *. apply andb_prop in E as [E1 E2].
  apply N.leb_le in E1, E2. apply andb_false_iff. right. apply N.leb_gt. lia.
Qed.

Lemma blankNonToken_not_upper (s : jsstring) :
  forallb (fun c => negb (isUpper c)) s = true ->
  forallb (fun c => negb (isUpper c)) (List.map blankNonToken s) = true.
Proof.
  induction s as [|c t IH]; simpl; [reflexivity|].
  intros H. apply andb_prop in H as [H1 H2]. rewrite (IH H2), andb_true_r.
  unfold blankNonToken. destruct (isTokenChar c); [exact H1 | reflexivity].
Qed.

Lemma tokenize_lower_chars (unicodeLower : jsstring -> jsstring) (t : jsstring) :
  forallb isAscii t = true ->
  Forall (fun w => forallb isLowerWordChar w = true) (tokenize unicodeLower t).
Proof.
  intros A. apply Forall_forall. intros w H. unfold tokenize in H.
  apply filter_In in H as [H _].
  unfold toLowerCase in H. rewrite (cleanText_ascii _ A) in H.
  assert (U : forallb (fun c => negb (isUpper c))
                (List.map blankNonToken (List.map lowerAscii (cleanText t))) = true).
  { apply blankNonToken_not_upper. rewrite forallb_map_eq.
    apply forallb_weaken with (q1 := fun _ => true); [|apply forallb_true].
    intros c _. now rewrite lowerAscii_not_upper. }
  pose proof (token_pieces _ _ U) as P.
  apply (proj1 (Forall_forall _ _) P) in H.
  revert H. apply forallb_weaken. intros c Hc.
  apply andb_prop in Hc as [Hc W]. apply andb_prop in Hc as [Hu Hc].
  assert (Hw : isWordChar c = true) by (apply wordChar_of_tokenChar; now rewrite Hc, W).
  unfold isWordChar in Hw. unfold isLowerWordChar.
  apply negb_true_iff in Hu. rewrite Hu, orb_false_r in Hw. exact Hw.
Qed.

(** X6: on a text of ASCII characters every token is made of lower-case
    letters, digits and hyphens only. *)
Theorem tokenize_lowercase (unicodeLower : jsstring -> jsstring) (t : jsstring) :
  forallb isAscii t = true ->
  Forall (fun w => forallb isLowerWordChar w = true) (tokenize unicodeLower t).
Proof.
  intros A. apply Forall_forall. intros w H. unfold tokenize in H.
  apply filter_In in H as [H _].
  unfold toLowerCase in H. rewrite (cleanText_ascii _ A) in H.
  assert (U : forallb (fun c => negb (isUpper c))
                (List.map blankNonToken (List.map lowerAscii (cleanText t))) = true).
  { apply blankNonToken_not_upper. rewrite forallb_map_eq.
    apply forallb_weaken with (q1 := fun _ => true); [|apply forallb_true].
    intros c _. now rewrite lowerAscii_not_upper. }
  pose proof (token_pieces _ _ U) as P.
  apply (proj1 (Forall_forall _ _) P) in H.
  revert H. apply forallb_weaken. intros c Hc.
  apply andb_prop in Hc as [Hc W]. apply andb_prop in Hc as [Hu Hc].
  assert (Hw : isWordChar c = true) by (apply wordChar_of_tokenChar; now rewrite Hc, W).
  unfold isWordChar in Hw. unfold isLowerWordChar.
  apply negb_true_iff in Hu. rewrite Hu, orb_false_r in Hw. exact Hw.
Qed.

Lemma tokenize_lowercase_witness :
  forallb isAscii (str "The Cat-2 SAT.") = true
  /\ forall unicodeLower,
       Forall (fun w => forallb isLowerWordChar w = true)
         (tokenize unicodeLower (str "The Cat-2 SAT.")).
Proof.
  split; [reflexivity|].
  intros unicodeLower.
  exact (tokenize_lowercase unicodeLower (str "The Cat-2 SAT.") eq_refl).
Defined.

(** ** How many terms and takeaways, and which *)

Lemma slice0_negative {A : Type} (e : Z) (l : list A) :
  (e < 0)%Z -> slice0 e l = firstn (Z.to_nat (Z.of_nat (List.length l) + e)) l.
Proof.
  intros H. unfold slice0. destruct (Z.ltb_spec e 0) as [_|L]; [|lia].
  f_equal. lia.
Qed.

Lemma slice0_length {A : Type} (e : Z) (l : list A) :
  (0 <= e)%Z ->
  Z.of_nat (List.length (slice0 e l)) = Z.min e (Z.of_nat (List.length l)).
Proof.
  intros H. rewrite slice0_nonneg by exact H. rewrite length_firstn. lia.
Qed.

Lemma slice0_prefix {A : Type} (j k : Z) (l : list A) :
  (0 <= j <= k)%Z -> slice0 j l = firstn (Z.to_nat j) (slice0 k l).
Proof.
  intros H. rewrite !slice0_nonneg by lia. rewrite firstn_firstn.
  f_equal. lia.
Qed.

Lemma slice0_all {A : Type} (e : Z) (l : list A) :
  (Z.of_nat (List.length l) <= e)%Z -> slice0 e l = l.
Proof.
  intros H. rewrite slice0_nonneg by lia. apply firstn_all2. lia.
Qed.

Lemma sumCounts_countStep (m : freqMap) (w : jsstring) :
  sumCounts (countStep m w) = (sumCounts m + 1)%Z.
Proof.
  unfold countStep. induction m as [|[k v] m IH]; simpl; [reflexivity|].
  destruct (jsstring_eqb w k); simpl; [lia|]. rewrite IH. lia.
Qed.

Lemma sumCounts_fold (l : list jsstring) (m : freqMap) :
  sumCounts (fold_left countStep l m) = (sumCounts m + Z.of_nat (List.length l))%Z.
Proof.
  revert m. induction l as [|w r IH]; intros m; simpl fold_left.
  - simpl. lia.
  - rewrite IH, sumCounts_countStep. simpl List.length. lia.
Qed.

Lemma mapGet_table (f : jsstring -> Z) (w : jsstring) (l : list jsstring) :
  mapGet w (List.map (fun x => (x, f x)) l)
  = if existsb (jsstring_eqb w) l then Some (f w) else None.
Proof.
  induction l as [|x l IH]; simpl; [reflexivity|].
  destruct (jsstring_eqb_spec w x) as [->|]; simpl; [reflexivity | exact IH].
Qed.

Lemma existsb_firstOccurrences (w : jsstring) (l : list jsstring) :
  existsb (jsstring_eqb w) (firstOccurrences l) = existsb (jsstring_eqb w) l.
Proof.
  destruct (existsb (jsstring_eqb w) l) eqn:E.
  - apply existsb_eqb_In. apply firstOccurrences_In. now apply existsb_eqb_In.
  - destruct (existsb (jsstring_eqb w) (firstOccurrences l)) eqn:F; [|reflexivity].
    apply (proj1 (existsb_eqb_In _ _)) in F.
    apply (proj1 (firstOccurrences_In _ _)) in F.
    apply (proj2 (existsb_eqb_In _ _)) in F. congruence.
Qed.

Lemma occurrences_positive (w : jsstring) (l : list jsstring) :
  In w l -> (1 <= occurrences w l)%Z.
Proof.
  induction l as [|x l IH]; simpl; [tauto|].
  assert (0 <= occurrences w l)%Z.
  { clear. induction l as [|y l IH]; simpl; [lia|]. destruct (jsstring_eqb y w); lia. }
  intros [->|H']; [rewrite jsstring_eqb_refl; lia|].
  specialize (IH H'). destruct (jsstring_eqb x w); lia.
Qed.

Section Counts.
Variable unicodeLower : jsstring -> jsstring.

(** X7: the [Map] that the loop of [topTerms] builds gives for a token
    the number of its occurrences among the tokens, which is at least 1,
    and nothing for any other word; its counts add up to the number of
    tokens. *)
Theorem termFrequencies_lookup (t : jsstring) (w : jsstring) :
  mapGet w (termFrequencies unicodeLower t)
  = (if existsb (jsstring_eqb w) (tokenize unicodeLower t)
     then Some (occurrences w (tokenize unicodeLower t))
     else None)
  /\ Forall (fun e => (1 <= snd e)%Z) (termFrequencies unicodeLower t)
  /\ sumCounts (termFrequencies unicodeLower t)
     = Z.of_nat (List.length (tokenize unicodeLower t)).
Proof.
  split; [|split].
  - rewrite termFrequencies_table. unfold frequencyTable.
    now rewrite mapGet_table, existsb_firstOccurrences.
  - rewrite termFrequencies_table. unfold frequencyTable.
    apply Forall_forall. intros e H. apply in_map_iff in H as (x & <- & H).
    simpl. apply occurrences_positive. now apply firstOccurrences_In.
  - unfold termFrequencies. now rewrite sumCounts_fold.
Qed.

Lemma ranked_length (l : list jsstring) :
  List.length (sortBy byCountDesc (frequencyTable l))
  = List.length (firstOccurrences l).
Proof.
  unfold byCountDesc. rewrite (Permutation_length (sortBy_perm snd (frequencyTable l))).
  unfold frequencyTable. apply length_map.
Qed.

(** X8: for [k >= 0], [topTerms] returns exactly [min k d] terms, where
    [d] is the number of distinct tokens of the text. *)
Theorem topTerms_count (t : jsstring) (k : Z) :
  (0 <= k)%Z ->
  Z.of_nat (List.length (topTerms unicodeLower t k))
  = Z.min k (Z.of_nat (List.length (firstOccurrences (tokenize unicodeLower t)))).
Proof.
  intros H. unfold topTerms.
  now rewrite length_map, slice0_length, termFrequencies_table, ranked_length.
Qed.

Lemma topTerms_firstn (t : jsstring) (j k : Z) :
  (0 <= j <= k)%Z ->
  topTerms unicodeLower t j = firstn (Z.to_nat j) (topTerms unicodeLower t k).
Proof.
  intros H. unfold topTerms. now rewrite firstn_map, <- slice0_prefix.
Qed.

(** X9: asking for fewer terms gives a prefix of asking for more: for
    [0 <= j <= k], [topTerms t j] is the first [j] terms of
    [topTerms t k]. *)
Theorem topTerms_fewer (t : jsstring) (j k : Z) :
  (0 <= j <= k)%Z ->
  topTerms unicodeLower t j = firstn (Z.to_nat j) (topTerms unicodeLower t k).
Proof.
  intros H. unfold topTerms. now rewrite firstn_map, <- slice0_prefix.
Qed.

(** X10: for a negative [k], [topTerms] returns the full ranking of the
    distinct tokens without its last [-k] terms (all of it for [k] at
    least the number of distinct tokens). *)
Theorem topTerms_negative (t : jsstring) (k : Z) :
  (k < 0)%Z ->
  topTerms unicodeLower t k
  = firstn (Z.to_nat (Z.of_nat (List.length (firstOccurrences (tokenize unicodeLower t))) + k))
      (topTerms unicodeLower t
         (Z.of_nat (List.length (firstOccurrences (tokenize unicodeLower t))))).
Proof.
  intros H. unfold topTerms. rewrite termFrequencies_table.
  rewrite slice0_negative by exact H.
  rewrite (slice0_all (Z.of_nat _)) by (rewrite ranked_length; lia).
  now rewrite firstn_map, ranked_length.
Qed.

Lemma takeaways_length (text : jsstring) :
  List.length (sortBy byScoreDesc (List.map (scoreSentence unicodeLower) (sentenceSplit text)))
  = List.length (sentenceSplit text).
Proof.
  unfold byScoreDesc.
  rewrite (Permutation_length
             (sortBy_perm Scored.score
                (List.map (scoreSentence unicodeLower) (sentenceSplit text)))).
  apply length_map.
Qed.

(** X11: for [n >= 0], [keyTakeaways] returns exactly [min n s]
    sentences, where [s] is the number of sentences of the text; when [n]
    is at least [s] it returns all the sentences, reordered. *)
Theorem keyTakeaways_count (text : jsstring) (n : Z) :
  (0 <= n)%Z ->
  Z.of_nat (List.length (keyTakeaways unicodeLower text n))
  = Z.min n (Z.of_nat (List.length (sentenceSplit text)))
  /\ ((Z.of_nat (List.length (sentenceSplit text)) <= n)%Z ->
      Permutation (keyTakeaways unicodeLower text n) (sentenceSplit text)).
Proof.
  intros H. unfold keyTakeaways. rewrite length_map. split.
  - rewrite slice0_length by lia. rewrite takeaways_length, length_map. lia.
  - intros G. rewrite slice0_all.
    + rewrite <- (scoreSentence_s unicodeLower (sentenceSplit text)) at 2.
      apply Permutation_map. apply (sortBy_perm Scored.score).
    + rewrite takeaways_length, length_map. lia.
Qed.

(** X12: asking for fewer takeaways gives a prefix of asking for more:
    for [0 <= j <= n], [keyTakeaways text j] is the first [j] sentences of
    [keyTakeaways text n]. *)
Theorem keyTakeaways_fewer (text : jsstring) (j n : Z) :
  (0 <= j <= n)%Z ->
  keyTakeaways unicodeLower text j
  = firstn (Z.to_nat j) (keyTakeaways unicodeLower text n).
Proof.
  intros H. unfold keyTakeaways. rewrite firstn_map. f_equal.
  set (sorted := sortBy byScoreDesc (List.map (scoreSentence unicodeLower) (sentenceSplit text))).
  set (len := Z.of_nat (List.length (List.map (scoreSentence unicodeLower) (sentenceSplit text)))).
  assert (L : (0 <= len)%Z) by (unfold len; lia).
  rewrite (slice0_prefix (Z.min j len) (Z.min n len)) by lia.
  rewrite (slice0_nonneg (Z.min n len)) by lia.
  rewrite !firstn_firstn. f_equal. lia.
Qed.

(** X13: for a negative [n], [keyTakeaways] returns the full ranking of
    the sentences without its last [-n] sentences. *)
Theorem keyTakeaways_negative (text : jsstring) (n : Z) :
  (n < 0)%Z ->
  keyTakeaways unicodeLower text n
  = firstn (Z.to_nat (Z.of_nat (List.length (sentenceSplit text)) + n))
      (keyTakeaways unicodeLower text (Z.of_nat (List.length (sentenceSplit text)))).
Proof.
  intros H. unfold keyTakeaways. rewrite length_map.
  rewrite Z.min_l by lia. rewrite Z.min_id.
  rewrite slice0_negative by exact H.
  rewrite slice0_all by (rewrite takeaways_length; lia).
  now rewrite firstn_map, takeaways_length.
Qed.

Lemma firstOccurrences_length (l : list jsstring) :
  (List.length (firstOccurrences l) <= List.length l)%nat.
Proof.
  induction l as [|w r IH]; simpl; [lia|].
  pose proof (filter_length_le (fun x => negb (jsstring_eqb x w)) (firstOccurrences r)).
  lia.
Qed.

(** X14: the score of a sentence is 0 exactly when the sentence has no
    token; it is never negative, at most twice the number of tokens and at
    most 8 more than the number of tokens. *)
Theorem scoreSentence_bounds (s : jsstring) :
  (0 <= Scored.score (scoreSentence unicodeLower s)
   <= Z.min (2 * Z.of_nat (List.length (tokenize unicodeLower s)))
        (Z.of_nat (List.length (tokenize unicodeLower s)) + 8))%Z
  /\ (Scored.score (scoreSentence unicodeLower s) = 0%Z
      <-> tokenize unicodeLower s = []).
Proof.
  rewrite scoreSentence_score.
  pose proof (firstOccurrences_length (tokenize unicodeLower s)) as L.
  destruct (tokenize unicodeLower s) as [|w r] eqn:E.
  - simpl. split; [lia | tauto].
  - cbn [firstOccurrences List.length] in *. split; [lia|].
    split; [lia | discriminate].
Qed.

End Counts.

Lemma topTerms_count_witness :
  (0 <= 2)%Z
  /\ forall unicodeLower,
       Z.of_nat (List.length (topTerms unicodeLower termsExample 2))
       = Z.min 2 (Z.of_nat (List.length (firstOccurrences (tokenize unicodeLower termsExample)))).
Proof.
  split; [discriminate|]. intros unicodeLower.
  apply (topTerms_count unicodeLower termsExample 2). discriminate.
Defined.

Lemma topTerms_fewer_witness :
  (0 <= 1 <= 3)%Z
  /\ forall unicodeLower,
       topTerms unicodeLower termsExample 1
       = firstn (Z.to_nat 1) (topTerms unicodeLower termsExample 3).
Proof.
  split; [split; discriminate|]. intros unicodeLower.
  apply (topTerms_fewer unicodeLower termsExample 1 3). split; discriminate.
Defined.

Lemma topTerms_negative_witness :
  (-1 < 0)%Z
  /\ forall unicodeLower,
       topTerms unicodeLower termsExample (-1)
       = firstn (Z.to_nat (Z.of_nat (List.length (firstOccurrences (tokenize unicodeLower termsExample))) + -1))
           (topTerms unicodeLower termsExample
              (Z.of_nat (List.length (firstOccurrences (tokenize unicodeLower termsExample))))).
Proof.
  split; [reflexivity|]. intros unicodeLower.
  apply (topTerms_negative unicodeLower termsExample (-1)). reflexivity.
Defined.

Lemma keyTakeaways_count_witness :
  (0 <= 5)%Z
  /\ forall unicodeLower,
       Z.of_nat (List.length (keyTakeaways unicodeLower twoSentences 5))
       = Z.min 5 (Z.of_nat (List.length (sentenceSplit twoSentences)))
       /\ ((Z.of_nat (List.length (sentenceSplit twoSentences)) <= 5)%Z ->
           Permutation (keyTakeaways unicodeLower twoSentences 5) (sentenceSplit twoSentences)).
Proof.
  split; [discriminate|]. intros unicodeLower.
  apply (keyTakeaways_count unicodeLower twoSentences 5). discriminate.
Defined.

Lemma keyTakeaways_fewer_witness :
  (0 <= 1 <= 2)%Z
  /\ forall unicodeLower,
       keyTakeaways unicodeLower twoSentences 1
       = firstn (Z.to_nat 1) (keyTakeaways unicodeLower twoSentences 2).
Proof.
  split; [split; discriminate|]. intros unicodeLower.
  apply (keyTakeaways_fewer unicodeLower twoSentences 1 2). split; discriminate.
Defined.

Lemma keyTakeaways_negative_witness :
  (-1 < 0)%Z
  /\ forall unicodeLower,
       keyTakeaways unicodeLower twoSentences (-1)
       = firstn (Z.to_nat (Z.of_nat (List.length (sentenceSplit twoSentences)) + -1))
           (keyTakeaways unicodeLower twoSentences
              (Z.of_nat (List.length (sentenceSplit twoSentences)))).
Proof.
  split; [reflexivity|]. intros unicodeLower.
  apply (keyTakeaways_negative unicodeLower twoSentences (-1)). reflexivity.
Defined.

(** ** The heading pattern *)

Lemma nullable_matches (r : regex) : nullable r = true <-> matches r [].
Proof.
  split.
  - induction r; simpl; intros H; try discriminate.
    + constructor.
    + apply andb_prop in H as [H1 H2]. apply (MSeq _ _ [] []); auto.
    + apply orb_prop in H as [H|H]; [apply MAltL | apply MAltR]; auto.
    + constructor.
  - intros H. remember (@nil char) as s eqn:E.
    induction H; simpl; try reflexivity; try discriminate.
    + apply app_eq_nil in E as [-> ->]. now rewrite IHmatches1, IHmatches2.
    + now rewrite IHmatches.
    + rewrite IHmatches by exact E. apply orb_true_r.
Qed.

Lemma deriv_sound (c : char) (r : regex) (s : jsstring) :
  matches (deriv c r) s -> matches r (c :: s).
Proof.
  revert s. induction r; simpl; intros s H.
  - inversion H.
  - inversion H.
  - destruct (b c) eqn:E; inversion H; subst. now constructor.
  - destruct (nullable r1) eqn:N.
    + inversion H as [| | | ? ? ? H1 | ? ? ? H1 | |]; subst.
      * inversion H1; subst. apply (MSeq r1 r2 (c :: s1) s2); auto.
      * apply (MSeq r1 r2 [] (c :: s)); [now apply nullable_matches | auto].
    + inversion H; subst. apply (MSeq r1 r2 (c :: s1) s2); auto.
  - inversion H; subst; [apply MAltL | apply MAltR]; auto.
  - inversion H; subst. apply (MStarApp r (c :: s1) s2); auto.
Qed.

Lemma deriv_complete (r : regex) (s' : jsstring) :
  matches r s' -> forall c s, s' = c :: s -> matches (deriv c r) s.
Proof.
  induction 1 as [ | p d Hd | a b s1 s2 H1 IH1 H2 IH2 | a b s0 H0 IH0 | a b s0 H0 IH0
                 | a | a s1 s2 H1 IH1 H2 IH2 ]; intros c s E; simpl.
  - discriminate.
  - injection E as -> <-. rewrite Hd. constructor.
  - destruct s1 as [|x s1].
    + simpl in E. subst s2. apply nullable_matches in H1. rewrite H1.
      apply MAltR. now apply IH2.
    + simpl in E. injection E as -> <-.
      assert (M : matches (Seq (deriv c a) b) (s1 ++ s2))
        by (constructor; [now apply IH1 | exact H2]).
      destruct (nullable a); [now apply MAltL | exact M].
  - apply MAltL. now apply IH0.
  - apply MAltR. now apply IH0.
  - discriminate.
  - destruct s1 as [|x s1].
    + simpl in E. now apply IH2.
    + simpl in E. injection E as -> <-. constructor; [now apply IH1 | exact H2].
Qed.

(** The derivative test decides the language. *)
Lemma fullMatch_matches (r : regex) (s : jsstring) :
  fullMatch r s = true <-> matches r s.
Proof.
  unfold fullMatch. revert r. induction s as [|c s IH]; intros r; simpl.
  - apply nullable_matches.
  - rewrite IH. split; [apply deriv_sound|].
    intros H. now apply (deriv_complete r (c :: s)).
Qed.

Lemma matches_class_seq (p : char -> bool) (r : regex) (s : jsstring) :
  matches (Seq (Class p) r) s
  <-> exists c t, s = c :: t /\ p c = true /\ matches r t.
Proof.
  split.
  - intros H. inversion H as [| |? ? ? ? H1 H2| | | |]; subst.
    inversion H1; subst. simpl. eauto.
  - intros (c & t & -> & Hc & Ht). apply (MSeq (Class p) r [c] t); [now constructor | exact Ht].
Qed.

Lemma matches_class_star (p : char -> bool) (s : jsstring) :
  matches (Star (Class p)) s <-> forallb p s = true.
Proof.
  split.
  - intros H. remember (Star (Class p)) as r eqn:E.
    induction H; try discriminate; [reflexivity|].
    injection E as ->. inversion H as [|? ? Hc| | | | |]; subst. simpl.
    rewrite IHmatches2 by reflexivity. now rewrite Hc.
  - induction s as [|c t IH]; simpl; intros H; [constructor|].
    apply andb_prop in H as [H1 H2].
    apply (MStarApp (Class p) [c] t); [now constructor | auto].
Qed.

Lemma dropWhile_app_all (p : char -> bool) (a b : jsstring) :
  forallb p a = true -> startsWith p b = false -> dropWhile p (a ++ b) = b.
Proof.
  intros Ha Hb. induction a as [|c a IH]; simpl.
  - now apply dropWhile_fixed.
  - simpl in Ha. apply andb_prop in Ha as [H1 H2]. rewrite H1. auto.
Qed.

Lemma matches_title (s : jsstring) :
  matches titleRegex s <-> isTitleText s = true.
Proof.
  unfold titleRegex, isTitleText. split.
  - intros H.
    apply matches_class_seq in H as (c & t & -> & Hc & H).
    apply matches_class_seq in H as (c1 & t1 & -> & H1 & H).
    apply matches_class_seq in H as (c2 & t2 & -> & H2 & H).
    apply matches_class_seq in H as (c3 & t3 & -> & H3 & H).
    apply matches_class_star in H. simpl. now rewrite Hc, H1, H2, H3, H.
  - destruct s as [|c [|c1 [|c2 [|c3 t3]]]]; simpl; try discriminate;
      try (rewrite andb_false_r; discriminate).
    intros H. apply andb_prop in H as [Hc H]. rewrite andb_true_r in Hc.
    apply andb_prop in H as [H1 H]. apply andb_prop in H as [H2 H].
    apply andb_prop in H as [H3 H].
    apply matches_class_seq. exists c, (c1 :: c2 :: c3 :: t3). repeat split; auto.
    apply matches_class_seq. exists c1, (c2 :: c3 :: t3). repeat split; auto.
    apply matches_class_seq. exists c2, (c3 :: t3). repeat split; auto.
    apply matches_class_seq. exists c3, t3. repeat split; auto.
    now apply matches_class_star.
Qed.

Lemma isTitleText_start (s : jsstring) :
  isTitleText s = true -> startsWith isUpper s = true.
Proof.
  destruct s as [|c r]; simpl; [discriminate|].
  intros H. apply andb_prop in H as [H _]. now apply andb_prop in H as [H _].
Qed.

Lemma isUpper_plain (c : char) :
  isUpper c = true ->
  isWhitespace c = false /\ isDigit c = false /\ (c =? 45) = false /\ (c =? BULLET) = false.
Proof.
  unfold isUpper. intros H. apply andb_prop in H as [H1 H2].
  apply N.leb_le in H1, H2.
  unfold isWhitespace, isDigit, BULLET.
  repeat match goal with
         | |- context [N.leb ?a ?b] => destruct (N.leb_spec a b); simpl; try lia
         | |- context [N.eqb ?a ?b] => destruct (N.eqb_spec a b); simpl; try lia
         end; auto.
Qed.

Lemma isWhitespace_plain (c : char) :
  isWhitespace c = true ->
  isDigit c = false /\ (c =? 45) = false /\ (c =? BULLET) = false.
Proof.
  intros H. repeat split.
  - destruct (isDigit c) eqn:E; [|reflexivity]. unfold isDigit in E.
    apply andb_prop in E as [E1 E2]. apply N.leb_le in E1, E2.
    unfold isWhitespace in H.
    repeat match type of H with
           | context [N.leb ?a ?b] => destruct (N.leb_spec a b); simpl in H; try lia
           | context [N.eqb ?a ?b] => destruct (N.eqb_spec a b); simpl in H; try lia
           end; discriminate.
  - destruct (N.eqb_spec c 45) as [->|]; [discriminate H | reflexivity].
  - destruct (N.eqb_spec c BULLET) as [->|]; [discriminate H | reflexivity].
Qed.

Lemma matches_body (s : jsstring) :
  matches bodyRegex s <-> isTitleText (dropWhile isWhitespace s) = true.
Proof.
  unfold bodyRegex. split.
  - intros H. inversion H as [| |? ? a b Ha Hb| | | |]; subst.
    apply matches_class_star in Ha. apply matches_title in Hb.
    rewrite dropWhile_app_all; auto.
    apply isTitleText_start in Hb. destruct b as [|c r]; [reflexivity|].
    simpl in *. now apply isUpper_plain in Hb as [-> _].
  - intros H. rewrite <- (takeWhile_dropWhile isWhitespace s).
    constructor; [apply matches_class_star, takeWhile_all | now apply matches_title].
Qed.

(** A string that the body pattern matches begins with no marker. *)
Lemma body_no_marker (s : jsstring) :
  isTitleText (dropWhile isWhitespace s) = true -> stripMarker s = s.
Proof.
  destruct s as [|c t]; [reflexivity|]. intros H. unfold stripMarker.
  simpl in H. destruct (isWhitespace c) eqn:W.
  - apply isWhitespace_plain in W as (-> & -> & ->). reflexivity.
  - apply isTitleText_start in H. simpl in H.
    apply isUpper_plain in H as (_ & -> & -> & ->). reflexivity.
Qed.

Lemma takeWhile_nil_start (p : char -> bool) (s : jsstring) :
  startsWith p s = true -> takeWhile p s <> [].
Proof. destruct s as [|c t]; simpl; [discriminate|]. now intros ->. Qed.

Lemma matches_chr (c : char) (s : jsstring) : matches (Chr c) s <-> s = [c].
Proof.
  unfold Chr. split.
  - intros H. inversion H as [|? ? Hc| | | | |]; subst. now apply N.eqb_eq in Hc as ->.
  - intros ->. constructor. apply N.eqb_refl.
Qed.

Lemma matches_marker (m : jsstring) :
  matches markerRegex m
  <-> m = [45] \/ m = [BULLET]
      \/ exists d ds, forallb isDigit (d :: ds) = true /\ m = (d :: ds) ++ [46].
Proof.
  unfold markerRegex, Plus. split.
  - intros H. inversion H as [| | |? ? ? H1|? ? ? H1| |]; subst.
    + right. right. inversion H1 as [| |? ? a b Ha Hb| | | |]; subst.
      apply matches_chr in Hb as ->.
      apply matches_class_seq in Ha as (d & ds & -> & Hd & Hs).
      apply matches_class_star in Hs. exists d, ds. simpl. now rewrite Hd, Hs.
    + inversion H1 as [| | |? ? ? H2|? ? ? H2| |]; subst;
        apply matches_chr in H2 as ->; auto.
  - intros [->|[->|(d & ds & H & ->)]].
    + apply MAltR, MAltL. now apply matches_chr.
    + apply MAltR, MAltR. now apply matches_chr.
    + apply MAltL. constructor; [|now apply matches_chr].
      simpl in H. apply andb_prop in H as [Hd Hs].
      apply matches_class_seq. exists d, ds. repeat split; auto.
      now apply matches_class_star.
Qed.

Lemma app_cons_assoc (a : jsstring) (x : char) (b : jsstring) :
  a ++ x :: b = (a ++ [x]) ++ b.
Proof. now rewrite <- app_assoc. Qed.

Lemma headingRegex_parts : headingRegex = Seq (Opt markerRegex) bodyRegex.
Proof. reflexivity. Qed.

Lemma matches_heading (line : jsstring) :
  matches headingRegex line <-> headingShape line = true.
Proof.
  rewrite headingRegex_parts. unfold headingShape. split.
  - intros H. inversion H as [| |? ? m b Hm Hb| | | |]; subst.
    apply matches_body in Hb.
    inversion Hm as [| | |? ? ? H1|? ? ? H1| |]; subst.
    + inversion H1; subst. simpl. now rewrite (body_no_marker _ Hb).
    + apply matches_marker in H1 as [->|[->|(d & ds & Hd & ->)]].
      * exact Hb.
      * exact Hb.
      * pose proof Hd as Hd'. simpl in Hd'. apply andb_prop in Hd' as [D _].
        assert (E : stripMarker (((d :: ds) ++ [46]) ++ b) = b).
        { unfold stripMarker. cbn [app].
          assert (N1 : (d =? 45) || (d =? BULLET) = false).
          { unfold isDigit in D. apply andb_prop in D as [D1 D2].
            apply N.leb_le in D1, D2. unfold BULLET.
            destruct (N.eqb_spec d 45), (N.eqb_spec d 8226); simpl; auto; lia. }
          rewrite N1, D.
          replace (d :: (ds ++ [46]) ++ b) with ((d :: ds) ++ 46 :: b)
            by (simpl; now rewrite <- app_assoc).
          rewrite (dropWhile_app_all isDigit (d :: ds) (46 :: b) Hd eq_refl).
          reflexivity. }
        now rewrite E.
  - intros H. destruct line as [|c t]; [discriminate H|].
    unfold stripMarker in H.
    destruct ((c =? 45) || (c =? BULLET)) eqn:M.
    + apply (MSeq (Opt markerRegex) bodyRegex [c] t); [|apply (proj2 (matches_body _)); exact H].
      apply MAltR. apply matches_marker.
      apply orb_prop in M as [M|M]; apply N.eqb_eq in M; subst; auto.
    + destruct (isDigit c) eqn:D.
      * destruct (dropWhile isDigit (c :: t)) as [|d t'] eqn:DW.
        -- simpl in H. assert (W : isWhitespace c = false).
           { destruct (isWhitespace c) eqn:W; [|reflexivity].
             apply isWhitespace_plain in W as [W _]. congruence. }
           rewrite W in H. simpl in H.
           assert (U : isUpper c = false).
           { destruct (isUpper c) eqn:U; [|reflexivity].
             apply isUpper_plain in U as (_ & U & _). congruence. }
           rewrite U in H. discriminate H.
        -- destruct (N.eqb_spec d 46) as [->|N].
           ++ rewrite <- (takeWhile_dropWhile isDigit (c :: t)), DW.
              rewrite app_cons_assoc.
              apply MSeq; [|apply (proj2 (matches_body _)); exact H].
              apply MAltR. apply matches_marker. right. right.
              simpl takeWhile. rewrite D.
              exists c, (takeWhile isDigit t). split; [|reflexivity].
              simpl. rewrite D. apply takeWhile_all.
           ++ simpl in H. assert (W : isWhitespace c = false).
              { destruct (isWhitespace c) eqn:W; [|reflexivity].
                apply isWhitespace_plain in W as [W _]. congruence. }
              rewrite W in H. simpl in H.
              assert (U : isUpper c = false).
              { destruct (isUpper c) eqn:U; [|reflexivity].
                apply isUpper_plain in U as (_ & U & _). congruence. }
              rewrite U in H. discriminate H.
      * apply (MSeq (Opt markerRegex) bodyRegex [] (c :: t));
          [apply MAltL; constructor | apply (proj2 (matches_body _)); exact H].
Qed.

(** X15: a line is a heading exactly when it is shorter than 80
    characters and consists of an optional marker (a hyphen, a bullet, or
    digits and a dot), optional whitespace, an upper-case letter and at
    least three more letters, digits, whitespace characters or hyphens. *)
Theorem isHeading_shape (line : jsstring) :
  isHeading line = headingShape line && (List.length line <? 80)%nat.
Proof.
  unfold isHeading. f_equal.
  destruct (headingShape line) eqn:E.
  - apply fullMatch_matches, matches_heading. exact E.
  - destruct (fullMatch headingRegex line) eqn:F; [|reflexivity].
    apply fullMatch_matches, matches_heading in F. congruence.
Qed.

(** ** The chunks of the outline *)

Lemma outlineFrom_Forall (P : chunk -> Prop) (lines : list jsstring) :
  (forall b, P (mkChunk sectionLabel b)) ->
  (forall l, isHeading l = true -> P (mkChunk (trim l) [])) ->
  forall chunks buf,
    Forall P chunks -> Forall P (outlineFrom (chunks, buf) lines).
Proof.
  intros HS HH. induction lines as [|l r IH]; intros chunks buf Hc.
  - unfold outlineFrom. simpl. destruct buf; [exact Hc|].
    unfold push. apply Forall_app. split; [exact Hc | repeat constructor; apply HS].
  - rewrite outlineFrom_cons. unfold outlineStep. destruct (isHeading l) eqn:E.
    + apply IH. apply Forall_app. split.
      * destruct buf; [exact Hc|]. unfold push. apply Forall_app.
        split; [exact Hc | repeat constructor; apply HS].
      * repeat constructor. now apply HH.
    + now apply IH.
Qed.

(** X16: no chunk of the outline has both a detected heading and a body:
    its body is empty or its heading is the label "Section"; and every
    heading is shorter than 80 characters. *)
Theorem chunkOutline_shape (text : jsstring) :
  Forall (fun c => (body c = [] \/ heading c = sectionLabel)
                   /\ (List.length (heading c) < 80)%nat)
    (chunkOutline text).
Proof.
  unfold chunkOutline, chunkLines. apply outlineFrom_Forall.
  - intros b. split; [now right | simpl; lia].
  - intros l H. split; [now left|]. simpl.
    unfold isHeading in H. apply andb_prop in H as [_ H]. apply Nat.ltb_lt in H.
    pose proof (length_trim l). lia.
  - constructor.
Qed.

Lemma outlineFrom_length (lines : list jsstring) (chunks : list chunk) (buf : list jsstring) :
  (List.length (outlineFrom (chunks, buf) lines)
   <= List.length chunks + (match buf with [] => 0 | _ :: _ => 1 end) + List.length lines)%nat.
Proof.
  revert chunks buf. induction lines as [|l r IH]; intros chunks buf.
  - unfold outlineFrom. simpl. destruct buf; [lia|].
    unfold push. rewrite length_app. simpl. lia.
  - rewrite outlineFrom_cons. unfold outlineStep. destruct (isHeading l).
    + etransitivity; [apply IH|]. destruct buf; unfold push;
        rewrite ?length_app; simpl; lia.
    + etransitivity; [apply IH|]. destruct buf; simpl; lia.
Qed.

Lemma outlineFrom_nonempty (lines : list jsstring) (chunks : list chunk) (buf : list jsstring) :
  chunks <> [] \/ buf <> [] -> outlineFrom (chunks, buf) lines <> [].
Proof.
  revert chunks buf. induction lines as [|l r IH]; intros chunks buf H.
  - unfold outlineFrom. simpl. destruct buf as [|x buf].
    + destruct H as [H|H]; [exact H | congruence].
    + unfold push. intros E. now apply app_eq_nil in E as [_ E].
  - rewrite outlineFrom_cons. unfold outlineStep. destruct (isHeading l); apply IH.
    + left. intros E. now apply app_eq_nil in E as [_ E].
    + right. intros E. now apply app_eq_nil in E as [_ E].
Qed.

Lemma splitRuns_nonempty (p : char -> bool) (s : jsstring) : splitRuns p s <> [].
Proof.
  induction s as [|c t IH]; simpl; [discriminate|].
  destruct (p c); [destruct (startsWith p t); [exact IH | discriminate]|].
  destruct (splitRuns p t); discriminate.
Qed.

(** X17: the outline is never empty, for any text, and it has at most as
    many chunks as the normalized text has lines. *)
Theorem chunkOutline_count (text : jsstring) :
  (1 <= List.length (chunkOutline text)
   <= List.length (splitRuns isNewline (cleanText text)))%nat.
Proof.
  unfold chunkOutline, chunkLines. split.
  - pose proof (splitRuns_nonempty isNewline (cleanText text)) as N.
    destruct (splitRuns isNewline (cleanText text)) as [|l r]; [congruence|].
    assert (E : outlineFrom ([], []) (l :: r) <> []).
    { rewrite outlineFrom_cons. unfold outlineStep.
      destruct (isHeading l); apply outlineFrom_nonempty; [left | right]; discriminate. }
    destruct (outlineFrom ([], []) (l :: r)); [congruence | simpl; lia].
  - etransitivity; [apply outlineFrom_length|]. simpl. lia.
Qed.

(** ** The fragments of the sentence splitter *)

Lemma join_cons_char (sep : jsstring) (c : char) (p : jsstring) (rest : list jsstring) :
  join sep ((c :: p) :: rest) = c :: join sep (p :: rest).
Proof. destruct rest; reflexivity. Qed.

Lemma splitAfterTerminator_nonempty (a b : bool) (s : jsstring) :
  splitAfterTerminator a b s <> [].
Proof.
  revert a b. induction s as [|c t IH]; intros a b; simpl; [discriminate|].
  destruct (isWhitespace c && (b || a)).
  - destruct (startsWith isWhitespace t); [apply IH | discriminate].
  - destruct (splitAfterTerminator (isTerminator c) false t); discriminate.
Qed.

(** On a text whose whitespace is single spaces every separator is one
    space, so joining the fragments with a space gives the text back. *)
Lemma join_splitAfterTerminator (a : bool) (s : jsstring) :
  settled isWhitespace s = true ->
  join [SPACE] (splitAfterTerminator a false s) = s.
Proof.
  revert a. induction s as [|c t IH]; intros a H; [reflexivity|].
  simpl in H. apply andb_prop in H as [H1 H2]. specialize (IH (isTerminator c) H2) as IHt.
  cbn [splitAfterTerminator]. destruct (isWhitespace c) eqn:W.
  - simpl in H1. apply andb_prop in H1 as [E F]. apply N.eqb_eq in E. subst c.
    apply negb_true_iff in F. rewrite F. destruct a; cbn [andb orb].
    + pose proof (splitAfterTerminator_nonempty false false t) as N.
      specialize (IH false H2).
      destruct (splitAfterTerminator false false t) as [|q rest]; [congruence|].
      change (join [SPACE] ([] :: q :: rest)) with (SPACE :: join [SPACE] (q :: rest)).
      now rewrite IH.
    + pose proof (splitAfterTerminator_nonempty (isTerminator SPACE) false t) as N.
      destruct (splitAfterTerminator (isTerminator SPACE) false t) as [|q rest];
        [congruence|].
      now rewrite join_cons_char, IHt.
  - cbn [andb].
    pose proof (splitAfterTerminator_nonempty (isTerminator c) false t) as N.
    destruct (splitAfterTerminator (isTerminator c) false t) as [|q rest]; [congruence|].
    now rewrite join_cons_char, IHt.
Qed.

Lemma allButLast_cons {A : Type} (P : A -> bool) (x y : A) (r : list A) :
  allButLast P (x :: y :: r) = P x && allButLast P (y :: r).
Proof. reflexivity. Qed.

Lemma allButLast_filter {A : Type} (P f : A -> bool) (l : list A) :
  allButLast P l = true -> allButLast P (filter f l) = true.
Proof.
  induction l as [|x r IH]; [reflexivity|].
  destruct r as [|y r].
  - intros _. simpl. destruct (f x); reflexivity.
  - rewrite allButLast_cons. intros H. apply andb_prop in H as [Hx Hr].
    specialize (IH Hr). cbn [filter] in *. destruct (f x); [|exact IH].
    destruct (if f y then y :: filter f r else filter f r) as [|z r'] eqn:E;
      [reflexivity|].
    rewrite allButLast_cons, Hx. exact IH.
Qed.

Lemma endsWithTerminator_fragments (a : bool) (s : jsstring) :
  settled isWhitespace s = true ->
  match splitAfterTerminator a false s with
  | [] => False
  | p :: rest =>
      (rest = [] \/ endsWithTerminator a p = true)
      /\ allButLast (endsWithTerminator false) rest = true
  end.
Proof.
  revert a. induction s as [|c t IH]; intros a H; [simpl; auto|].
  simpl in H. apply andb_prop in H as [H1 H2].
  cbn [splitAfterTerminator]. destruct (isWhitespace c && (false || a)) eqn:E.
  - apply andb_prop in E as [W A]. simpl in A. subst a.
    rewrite W in H1. simpl in H1. apply andb_prop in H1 as [_ F].
    apply negb_true_iff in F. rewrite F.
    specialize (IH false H2).
    destruct (splitAfterTerminator false false t) as [|q rest]; [contradiction|].
    destruct IH as [[->|Q] R]; split; auto.
    destruct rest as [|y rest]; [reflexivity|].
    rewrite allButLast_cons, Q. exact R.
  - specialize (IH (isTerminator c) H2).
    destruct (splitAfterTerminator (isTerminator c) false t) as [|q rest]; [contradiction|].
    exact IH.
Qed.

Lemma collapsed_settled (t : jsstring) :
  settled isWhitespace (collapseWhitespace (cleanText t)) = true.
Proof. unfold collapseWhitespace. now apply settled_replaceRuns. Qed.

(** X18: the sentences are the fragments longer than two characters of a
    decomposition of the normalized, whitespace-collapsed text: joined
    with single spaces the fragments give that text back, and every
    fragment but the last ends with [.], [!] or [?]. *)
Theorem sentenceSplit_fragments (t : jsstring) :
  exists frags,
    join [SPACE] frags = collapseWhitespace (cleanText t)
    /\ allButLast (endsWithTerminator false) frags = true
    /\ sentenceSplit t = filter longerThan2 frags.
Proof.
  exists (splitAfterTerminator false false (collapseWhitespace (cleanText t))).
  pose proof (collapsed_settled t) as S.
  split; [now apply join_splitAfterTerminator|]. split; [|reflexivity].
  pose proof (endsWithTerminator_fragments false _ S) as H.
  destruct (splitAfterTerminator false false (collapseWhitespace (cleanText t)))
    as [|p rest]; [contradiction|].
  destruct H as [[->|Q] R]; [reflexivity|].
  destruct rest as [|y rest]; [reflexivity|].
  rewrite allButLast_cons, Q. exact R.
Qed.

Lemma sentenceSplit_terminated_all (t : jsstring) :
  allButLast (endsWithTerminator false) (sentenceSplit t) = true.
Proof.
  unfold sentenceSplit. apply allButLast_filter.
  pose proof (endsWithTerminator_fragments false _ (collapsed_settled t)) as H.
  destruct (splitAfterTerminator false false (collapseWhitespace (cleanText t)))
    as [|p rest]; [contradiction|].
  destruct H as [[->|Q] R]; [reflexivity|].
  destruct rest as [|y rest]; [reflexivity|].
  rewrite allButLast_cons, Q. exact R.
Qed.

Lemma splitAfterTerminator_infix (a : bool) (s : jsstring) :
  settled isWhitespace s = true ->
  match splitAfterTerminator a false s with
  | [] => False
  | p :: rest =>
      (exists post, s = p ++ post \/ (a = true /\ p = []))
      /\ Forall (fun q => exists pre post, s = pre ++ q ++ post) rest
  end.
Proof.
  revert a. induction s as [|c t IH]; intros a H.
  - simpl. split; [exists []; now left | constructor].
  - simpl in H. apply andb_prop in H as [H1 H2].
    cbn [splitAfterTerminator]. destruct (isWhitespace c && (false || a)) eqn:E.
    + apply andb_prop in E as [W A]. simpl in A. subst a.
      rewrite W in H1. simpl in H1. apply andb_prop in H1 as [_ F].
      apply negb_true_iff in F. rewrite F.
      specialize (IH false H2).
      destruct (splitAfterTerminator false false t) as [|q rest]; [contradiction|].
      destruct IH as [(post & Q) R]. split; [exists []; now right|].
      constructor.
      * destruct Q as [Q|[Q _]]; [|discriminate Q].
        exists [c], post. simpl. now rewrite Q at 1.
      * eapply Forall_impl; [|exact R]. intros x (pre & po & X).
        exists (c :: pre), po. simpl. now rewrite X at 1.
    + specialize (IH (isTerminator c) H2).
      destruct (splitAfterTerminator (isTerminator c) false t) as [|q rest]; [contradiction|].
      destruct IH as [(post & Q) R]. split.
      * destruct Q as [Q|[_ ->]].
        -- exists post. left. simpl. now rewrite Q at 1.
        -- exists t. now left.
      * eapply Forall_impl; [|exact R]. intros x (pre & po & X).
        exists (c :: pre), po. simpl. now rewrite X at 1.
Qed.

(** X19: every sentence is a piece of the whitespace-collapsed text: it
    is longer than two characters and its only whitespace is single
    spaces (no newline, no tab, no two spaces in a row); and every
    sentence but the last ends with [.], [!] or [?]. *)
Theorem sentenceSplit_sentences (t : jsstring) :
  Forall (fun s => (2 < List.length s)%nat
                   /\ settled isWhitespace s = true
                   /\ exists pre post, collapseWhitespace (cleanText t) = pre ++ s ++ post)
    (sentenceSplit t)
  /\ allButLast (endsWithTerminator false) (sentenceSplit t) = true.
Proof.
  split; [|apply sentenceSplit_terminated_all].
  apply Forall_forall. intros s H. unfold sentenceSplit in H.
  apply filter_In in H as [H L]. unfold longerThan2 in L. apply Nat.ltb_lt in L.
  pose proof (collapsed_settled t) as S.
  pose proof (splitAfterTerminator_infix false _ S) as I.
  assert (X : exists pre post, collapseWhitespace (cleanText t) = pre ++ s ++ post).
  { destruct (splitAfterTerminator false false (collapseWhitespace (cleanText t)))
      as [|p rest]; [contradiction|].
    destruct I as [(post & Q) R]. destruct H as [<-|H].
    - destruct Q as [Q|[Q _]]; [|discriminate Q]. exists [], post. exact Q.
    - now apply (proj1 (Forall_forall _ _) R). }
  split; [exact L|]. split; [|exact X].
  destruct X as (pre & post & X). rewrite X in S.
  apply settled_suffix in S. now apply settled_prefix in S.
Qed.

(** ** The title *)

Section Title.
Variable unicodeLower : jsstring -> jsstring.

(** X20: when the first line is shorter than 80 characters, the title is
    what is left of that line after its longest prefix of hyphens,
    bullets, digits, dots and whitespace: it begins with none of these, is
    shorter than 80 characters and does not depend on the rest of the
    text. *)
Theorem guessTitle_short (text : jsstring) :
  (List.length (firstLineOf text) < 80)%nat ->
  startsWith isTitlePrefix (guessTitle unicodeLower text) = false
  /\ (List.length (guessTitle unicodeLower text) < 80)%nat
  /\ exists pre,
       firstLineOf text = pre ++ guessTitle unicodeLower text
       /\ forallb isTitlePrefix pre = true.
Proof.
  intros H. unfold guessTitle. fold (firstLineOf text).
  apply Nat.ltb_lt in H as H'. rewrite H'. split; [apply startsWith_dropWhile|].
  split.
  - pose proof (length_dropWhile isTitlePrefix (firstLineOf text)). lia.
  - exists (takeWhile isTitlePrefix (firstLineOf text)).
    split; [now rewrite takeWhile_dropWhile | apply takeWhile_all].
Qed.

(** X21: when the first line has 80 characters or more, the title is
    made of the first five terms of the "Terms" line of the document (the
    twelve top terms), each with its first letter in upper case, joined
    by " ", a bullet and " "; it is "Notes" when the text has no token. *)
Theorem guessTitle_long (text : jsstring) :
  (80 <= List.length (firstLineOf text))%nat ->
  guessTitle unicodeLower text
  = orNotes (join [SPACE; BULLET; SPACE]
               (List.map capitalize (firstn 5 (topTerms unicodeLower text 12))))
  /\ (tokenize unicodeLower text = [] -> guessTitle unicodeLower text = str "Notes").
Proof.
  intros H. unfold guessTitle. fold (firstLineOf text).
  apply Nat.ltb_ge in H as H'. rewrite H'. split.
  - rewrite (topTerms_firstn unicodeLower text 5 12) by lia. reflexivity.
  - intros E. unfold topTerms, termFrequencies. rewrite E. reflexivity.
Qed.

End Title.

Lemma guessTitle_short_witness :
  (List.length (firstLineOf (str "1. Intro to things")) < 80)%nat
  /\ forall unicodeLower,
       startsWith isTitlePrefix (guessTitle unicodeLower (str "1. Intro to things")) = false
       /\ (List.length (guessTitle unicodeLower (str "1. Intro to things")) < 80)%nat
       /\ exists pre,
            firstLineOf (str "1. Intro to things")
            = pre ++ guessTitle unicodeLower (str "1. Intro to things")
            /\ forallb isTitlePrefix pre = true.
Proof.
  assert (L : (List.length (firstLineOf (str "1. Intro to things")) < 80)%nat)
    by (apply Nat.ltb_lt; reflexivity).
  split; [exact L|]. intros unicodeLower.
  exact (guessTitle_short unicodeLower (str "1. Intro to things") L).
Defined.

Lemma guessTitle_long_witness :
  (80 <= List.length (firstLineOf longLine))%nat
  /\ forall unicodeLower,
       guessTitle unicodeLower longLine
       = orNotes (join [SPACE; BULLET; SPACE]
                    (List.map capitalize (firstn 5 (topTerms unicodeLower longLine 12))))
       /\ (tokenize unicodeLower longLine = [] -> guessTitle unicodeLower longLine = str "Notes").
Proof.
  assert (L : (80 <= List.length (firstLineOf longLine))%nat)
    by (apply Nat.leb_le; reflexivity).
  split; [exact L|]. intros unicodeLower.
  exact (guessTitle_long unicodeLower longLine L).
Defined.

(** ** The lines of the document *)

Lemma countNewlines_app (a b : jsstring) :
  countNewlines (a ++ b) = (countNewlines a + countNewlines b)%nat.
Proof. unfold countNewlines. now rewrite filter_app, length_app. Qed.

Lemma countNewlines_oneLine (s : jsstring) :
  oneLine s = true -> countNewlines s = 0%nat.
Proof.
  unfold countNewlines, oneLine. induction s as [|c t IH]; simpl; [reflexivity|].
  intros H. apply andb_prop in H as [H1 H2]. apply negb_true_iff in H1.
  rewrite H1. auto.
Qed.

Lemma countNewlines_lines {A : Type} (f : A -> jsstring) (l : list A) :
  Forall (fun x => countNewlines (f x) = 1%nat) l ->
  countNewlines (List.concat (List.map f l)) = List.length l.
Proof.
  induction 1 as [|x l Hx Hl IH]; [reflexivity|].
  cbn [List.map List.concat List.length]. now rewrite countNewlines_app, Hx, IH.
Qed.

Section Document.
Variable unicodeLower : jsstring -> jsstring.

Lemma toMarkdown_flat (t : jsstring) :
  toMarkdown unicodeLower t
  = str "# " ++ guessTitle unicodeLower t
    ++ [LF]
    ++ [LF] ++ str "## Key Takeaways"
    ++ List.concat (List.map (fun s => [LF] ++ str "- " ++ s) (keyTakeaways unicodeLower t 6))
    ++ [LF]
    ++ [LF] ++ str "## Outline"
    ++ List.concat (List.map
                 (fun c => [LF] ++ str "- **" ++ heading c ++ str "** "
                                ++ [EMDASH; SPACE] ++ firstn 220 (body c))
                 (chunkOutline t))
    ++ [LF]
    ++ [LF] ++ str "## Terms"
    ++ [LF] ++ str "> " ++ join (str ", ") (topTerms unicodeLower t 12).
Proof.
  unfold toMarkdown. etransitivity.
  { apply (join_cons [LF] (str "# " ++ guessTitle unicodeLower t)
             ([[]; str "## Key Takeaways"]
              ++ List.map takeawayLine (keyTakeaways unicodeLower t 6)
              ++ [[]; str "## Outline"]
              ++ List.map outlineLine (chunkOutline t)
              ++ [[]; str "## Terms";
                  str "> " ++ join (str ", ") (topTerms unicodeLower t 12)])). }
  rewrite !map_app, !concat_app, !map_map.
  unfold takeawayLine, outlineLine.
  cbn [List.map List.concat]. rewrite !app_nil_r, <- !app_assoc.
  reflexivity.
Qed.

(** X22: the document has exactly [8 + a + c] lines, where [a] is the
    number of takeaways and [c] the number of chunks of the outline (it
    holds [7 + a + c] newlines); there are at most 6 takeaways and at most
    12 terms. *)
Theorem toMarkdown_lines (t : jsstring) :
  countNewlines (toMarkdown unicodeLower t)
  = (7 + List.length (keyTakeaways unicodeLower t 6) + List.length (chunkOutline t))%nat
  /\ (List.length (keyTakeaways unicodeLower t 6) <= 6)%nat
  /\ (List.length (topTerms unicodeLower t 12) <= 12)%nat.
Proof.
  split; [|split].
  - rewrite toMarkdown_flat. rewrite !countNewlines_app.
    rewrite (countNewlines_oneLine _ (guessTitle_oneLine unicodeLower t)).
    rewrite (countNewlines_oneLine (join (str ", ") (topTerms unicodeLower t 12)))
      by (apply oneLine_join; [reflexivity | apply topTerms_oneLine]).
    rewrite (countNewlines_lines (fun s => [LF] ++ str "- " ++ s)).
    + rewrite (countNewlines_lines
                 (fun c => [LF] ++ str "- **" ++ heading c ++ str "** "
                                ++ [EMDASH; SPACE] ++ firstn 220 (body c))).
      * change (countNewlines (str "# ")) with 0%nat.
        change (countNewlines [LF]) with 1%nat.
        change (countNewlines (str "## Key Takeaways")) with 0%nat.
        change (countNewlines (str "## Outline")) with 0%nat.
        change (countNewlines (str "## Terms")) with 0%nat.
        change (countNewlines (str "> ")) with 0%nat. unfold jsstring. lia.
      * eapply Forall_impl; [|apply chunkOutline_oneLine].
        intros c [H1 H2]. rewrite !countNewlines_app.
        rewrite (countNewlines_oneLine _ H1).
        rewrite (countNewlines_oneLine _ (oneLine_firstn 220 _ H2)). reflexivity.
    + eapply Forall_impl; [|apply keyTakeaways_oneLine].
      intros s H. simpl in H. rewrite !countNewlines_app.
      now rewrite (countNewlines_oneLine _ H).
  - unfold keyTakeaways. rewrite length_map.
    destruct (slice0_firstn
                (Z.min 6 (Z.of_nat (List.length (List.map (scoreSentence unicodeLower)
                                                   (sentenceSplit t)))))
                (sortBy byScoreDesc (List.map (scoreSentence unicodeLower) (sentenceSplit t))))
      as [m E].
    rewrite slice0_nonneg by lia. rewrite length_firstn. lia.
  - unfold topTerms. rewrite length_map, slice0_nonneg by lia.
    rewrite length_firstn. lia.
Qed.

End Document.

(** ** The extraction functions *)

Lemma visible_join_space (l : list jsstring) :
  visible (join [SPACE] l) = List.concat (List.map visible l).
Proof.
  induction l as [|x l IH]; [reflexivity|].
  destruct l as [|y l].
  - simpl. now rewrite app_nil_r.
  - change (join [SPACE] (x :: y :: l)) with (x ++ [SPACE] ++ join [SPACE] (y :: l)).
    rewrite !visible_app, IH. reflexivity.
Qed.

Lemma visible_pages (pages : list (list (option jsstring))) (text : jsstring) :
  visible (fold_left addPage pages text) = visible text ++ visibleItems pages.
Proof.
  revert text. induction pages as [|items pages IH]; intros text.
  - simpl. unfold visibleItems. simpl. now rewrite app_nil_r.
  - cbn [fold_left]. rewrite IH. unfold addPage, pageText, visibleItems.
    rewrite !visible_app, visible_join_space, map_map.
    cbn [List.map List.concat]. rewrite <- !app_assoc. reflexivity.
Qed.

(** X23: the text extracted from a PDF holds exactly the visible
    characters of the text items, item after item and page after page:
    assembling and normalizing the pages adds, drops and moves whitespace
    only. *)
Theorem extractFromPDF_visible (pages : list (list (option jsstring))) :
  visible (extractFromPDF pages) = visibleItems pages.
Proof.
  unfold extractFromPDF. now rewrite cleanText_visible_eq, visible_pages.
Qed.

Lemma concat_nil_forall {A : Type} (l : list (list A)) :
  List.concat l = [] <-> Forall (fun x => x = []) l.
Proof.
  induction l as [|x l IH]; simpl; [split; auto|].
  split.
  - intros H. apply app_eq_nil in H as [-> H]. constructor; [reflexivity | now apply IH].
  - intros H. inversion H; subst. simpl. now apply IH.
Qed.

Lemma visibleItems_nil (pages : list (list (option jsstring))) :
  visibleItems pages = [] <-> blankPages pages = true.
Proof.
  unfold visibleItems, blankPages. split.
  - intros H. apply (proj1 (concat_nil_forall _)) in H.
    apply forallb_forall. intros items Hi. apply forallb_forall. intros i Hin.
    apply visible_nil.
    assert (E : List.concat (List.map (fun i => visible (orEmpty i)) items) = []).
    { apply (proj1 (Forall_forall _ _) H). apply in_map_iff. eauto. }
    apply (proj1 (concat_nil_forall _)) in E.
    apply (proj1 (Forall_forall _ _) E). apply in_map_iff. eauto.
  - intros H. apply (proj2 (concat_nil_forall _)). apply Forall_forall.
    intros x Hx. apply in_map_iff in Hx as (items & <- & Hi).
    apply (proj2 (concat_nil_forall _)). apply Forall_forall. intros y Hy.
    apply in_map_iff in Hy as (i & <- & Hin).
    apply visible_whitespace.
    pose proof (proj1 (forallb_forall _ _) H items Hi) as H'.
    now apply (proj1 (forallb_forall _ _) H').
Qed.

(** X24: the text extracted from a PDF is empty exactly when every text
    item of every page is whitespace only (a PDF without a page or
    without text among them); and the extracted text is normalized:
    [cleanText] leaves it as it is. *)
Theorem extractFromPDF_empty (pages : list (list (option jsstring))) :
  (extractFromPDF pages = [] <-> blankPages pages = true)
  /\ cleanText (extractFromPDF pages) = extractFromPDF pages
  /\ forall dataText, cleanText (extractFromImage dataText) = extractFromImage dataText.
Proof.
  split; [|split].
  - pose proof (visible_pages pages []) as V. simpl in V. split; intros H.
    + apply (proj1 (visibleItems_nil pages)). rewrite <- V.
      unfold extractFromPDF in H. now rewrite <- cleanText_visible_eq, H.
    + apply (proj2 (visibleItems_nil pages)) in H. unfold extractFromPDF.
      apply (proj2 (cleanText_nil _)). apply visible_nil. now rewrite V.
  - apply cleanText_fixed.
  - intros d. apply cleanText_fixed.
Qed.

(** ** Letter case *)

Section CaseMap.
Variable f : char -> char.
Hypothesis f_nbsp : forall c, nbspToSpace (f c) = f (nbspToSpace c).
Hypothesis f_tab : forall c, isTabOrSpace (f c) = isTabOrSpace c.
Hypothesis f_newline : forall c, isNewline (f c) = isNewline c.
Hypothesis f_whitespace : forall c, isWhitespace (f c) = isWhitespace c.
Hypothesis f_space : f SPACE = SPACE.

Lemma startsWith_map (p : char -> bool) (s : jsstring) :
  (forall c, p (f c) = p c) ->
  startsWith p (List.map f s) = startsWith p s.
Proof. intros H. destruct s; simpl; auto. Qed.

Lemma replaceRuns_map (p : char -> bool) (s : jsstring) :
  (forall c, p (f c) = p c) ->
  replaceRuns p [SPACE] (List.map f s) = List.map f (replaceRuns p [SPACE] s).
Proof.
  intros H. induction s as [|c t IH]; simpl; [reflexivity|].
  rewrite H, (startsWith_map p t H), IH.
  destruct (p c); [destruct (startsWith p t)|]; simpl; try reflexivity.
  now rewrite f_space.
Qed.

Lemma twoNewlines_map (s : jsstring) :
  twoNewlines (List.map f s) = twoNewlines s.
Proof. destruct s as [|a [|b r]]; simpl; auto. now rewrite !f_newline. Qed.

Lemma squeezeNewlines_map (s : jsstring) :
  squeezeNewlines (List.map f s) = List.map f (squeezeNewlines s).
Proof.
  induction s as [|c t IH]; simpl; [reflexivity|].
  rewrite f_newline, twoNewlines_map, IH.
  destruct (isNewline c && twoNewlines t); reflexivity.
Qed.

Lemma dropWhile_map (p : char -> bool) (s : jsstring) :
  (forall c, p (f c) = p c) ->
  dropWhile p (List.map f s) = List.map f (dropWhile p s).
Proof.
  intros H. induction s as [|c t IH]; simpl; [reflexivity|].
  rewrite H, IH. destruct (p c); reflexivity.
Qed.

Lemma trim_map (s : jsstring) : trim (List.map f s) = List.map f (trim s).
Proof.
  unfold trim, trimEnd, trimStart.
  rewrite (dropWhile_map _ _ f_whitespace), <- map_rev,
    (dropWhile_map _ _ f_whitespace), map_rev. reflexivity.
Qed.

Lemma cleanText_map (t : jsstring) :
  cleanText (List.map f t) = List.map f (cleanText t).
Proof.
  unfold cleanText.
  rewrite map_map, (map_ext _ _ f_nbsp), <- map_map.
  now rewrite (replaceRuns_map _ _ f_tab), squeezeNewlines_map, trim_map.
Qed.

End CaseMap.

Ltac case_bounds :=
  repeat match goal with
         | |- context [N.leb ?a ?b] => destruct (N.leb_spec a b); simpl; try lia
         | |- context [N.eqb ?a ?b] => destruct (N.eqb_spec a b); simpl; try lia
         | |- context [N.ltb ?a ?b] => destruct (N.ltb_spec a b); simpl; try lia
         end; auto.

Lemma letter_plain (c d : char) :
  65 <= c <= 122 -> 65 <= d <= 122 ->
  nbspToSpace c = c /\ isTabOrSpace c = false /\ isNewline c = false
  /\ isWhitespace c = false /\ isAscii c = true.
Proof.
  intros H _. unfold nbspToSpace, isTabOrSpace, isNewline, isWhitespace, isAscii, NBSP.
  repeat split; case_bounds.
Qed.

Lemma lowerAscii_cases (c : char) :
  lowerAscii c = c \/ (65 <= c <= 90 /\ lowerAscii c = c + 32).
Proof.
  unfold lowerAscii, isUpper.
  destruct (N.leb_spec 65 c), (N.leb_spec c 90); simpl; auto.
Qed.

Lemma upperAscii_cases (c : char) :
  upperAscii c = c \/ (97 <= c <= 122 /\ upperAscii c = c - 32).
Proof.
  unfold upperAscii, isLower.
  destruct (N.leb_spec 97 c), (N.leb_spec c 122); simpl; auto.
Qed.

Lemma lowerAscii_classes (c : char) :
  nbspToSpace (lowerAscii c) = lowerAscii (nbspToSpace c)
  /\ isTabOrSpace (lowerAscii c) = isTabOrSpace c
  /\ isNewline (lowerAscii c) = isNewline c
  /\ isWhitespace (lowerAscii c) = isWhitespace c
  /\ isAscii (lowerAscii c) = isAscii c
  /\ lowerAscii (lowerAscii c) = lowerAscii c.
Proof.
  destruct (lowerAscii_cases c) as [E|[B E]].
  - rewrite E. repeat split; auto.
    unfold nbspToSpace. destruct (N.eqb_spec c NBSP) as [->|]; [reflexivity | now symmetry].
  - rewrite E.
    destruct (letter_plain c c) as (A1 & A2 & A3 & A4 & A5); [lia | lia|].
    destruct (letter_plain (c + 32) c) as (B1 & B2 & B3 & B4 & B5); [lia | lia|].
    rewrite A1, A2, A3, A4, A5, B1, B2, B3, B4, B5, E. repeat split.
    unfold lowerAscii, isUpper. case_bounds.
Qed.

Lemma upperAscii_classes (c : char) :
  nbspToSpace (upperAscii c) = upperAscii (nbspToSpace c)
  /\ isTabOrSpace (upperAscii c) = isTabOrSpace c
  /\ isNewline (upperAscii c) = isNewline c
  /\ isWhitespace (upperAscii c) = isWhitespace c
  /\ isAscii (upperAscii c) = isAscii c
  /\ lowerAscii (upperAscii c) = lowerAscii c.
Proof.
  destruct (upperAscii_cases c) as [E|[B E]].
  - rewrite E. repeat split; auto.
    unfold nbspToSpace. destruct (N.eqb_spec c NBSP) as [->|]; [reflexivity | now symmetry].
  - rewrite E.
    destruct (letter_plain c c) as (A1 & A2 & A3 & A4 & A5); [lia | lia|].
    destruct (letter_plain (c - 32) c) as (B1 & B2 & B3 & B4 & B5); [lia | lia|].
    rewrite A1, A2, A3, A4, A5, B1, B2, B3, B4, B5, E. repeat split.
    unfold lowerAscii, isUpper. case_bounds.
Qed.

Section Case.
Variable unicodeLower : jsstring -> jsstring.

Lemma tokenize_map (f : char -> char) (t : jsstring) :
  (forall c, nbspToSpace (f c) = f (nbspToSpace c)
             /\ isTabOrSpace (f c) = isTabOrSpace c
             /\ isNewline (f c) = isNewline c
             /\ isWhitespace (f c) = isWhitespace c
             /\ isAscii (f c) = isAscii c
             /\ lowerAscii (f c) = lowerAscii c) ->
  f SPACE = SPACE ->
  forallb isAscii t = true ->
  tokenize unicodeLower (List.map f t) = tokenize unicodeLower t.
Proof.
  intros Hf Hs A. unfold tokenize. f_equal. f_equal. f_equal.
  rewrite (cleanText_map f); try (intros c; apply Hf); [|exact Hs].
  pose proof (cleanText_ascii t A) as X.
  unfold toLowerCase. rewrite X.
  assert (Y : forallb isAscii (List.map f (cleanText t)) = true).
  { rewrite forallb_map_eq. revert X. apply forallb_weaken.
    intros c Hc. now rewrite (proj1 (proj2 (proj2 (proj2 (proj2 (Hf c)))))). }
  rewrite Y, map_map. apply map_ext. intros c. apply Hf.
Qed.

(** X25: on a text of ASCII characters the tokens, and with them the
    top terms, do not depend on letter case: the text in upper case and
    the text in lower case have the tokens of the text itself. *)
Theorem tokenize_case (t : jsstring) (k : Z) :
  forallb isAscii t = true ->
  tokenize unicodeLower (List.map upperAscii t) = tokenize unicodeLower t
  /\ tokenize unicodeLower (List.map lowerAscii t) = tokenize unicodeLower t
  /\ topTerms unicodeLower (List.map upperAscii t) k = topTerms unicodeLower t k
  /\ topTerms unicodeLower (List.map lowerAscii t) k = topTerms unicodeLower t k.
Proof.
  intros A.
  assert (U : tokenize unicodeLower (List.map upperAscii t) = tokenize unicodeLower t)
    by (apply tokenize_map; [apply upperAscii_classes | reflexivity | exact A]).
  assert (L : tokenize unicodeLower (List.map lowerAscii t) = tokenize unicodeLower t)
    by (apply tokenize_map; [apply lowerAscii_classes | reflexivity | exact A]).
  unfold topTerms, termFrequencies. now rewrite U, L.
Qed.

End Case.

Lemma tokenize_case_witness :
  forallb isAscii (str "The Cat-2 SAT.") = true
  /\ forall unicodeLower,
       tokenize unicodeLower (List.map upperAscii (str "The Cat-2 SAT."))
       = tokenize unicodeLower (str "The Cat-2 SAT.").
Proof.
  split; [reflexivity|]. intros unicodeLower.
  exact (proj1 (tokenize_case unicodeLower (str "The Cat-2 SAT.") 0 eq_refl)).
Defined.

(** ** What a heading line looks like *)

Lemma stripMarker_suffix (line : jsstring) :
  exists pre, line = pre ++ stripMarker line.
Proof.
  destruct line as [|c t]; [exists []; reflexivity|].
  unfold stripMarker. destruct ((c =? 45) || (c =? BULLET)); [exists [c]; reflexivity|].
  destruct (isDigit c); [|exists []; reflexivity].
  destruct (dropWhile isDigit (c :: t)) as [|d t'] eqn:E; [exists []; reflexivity|].
  destruct (d =? 46); [|exists []; reflexivity].
  exists (takeWhile isDigit (c :: t) ++ [d]).
  rewrite <- app_cons_assoc, <- E. symmetry. apply takeWhile_dropWhile.
Qed.

Lemma isTitleText_chars (s : jsstring) :
  isTitleText s = true ->
  (4 <= List.length s)%nat /\ forallb isHeadingChar s = true
  /\ existsb isUpper s = true.
Proof.
  destruct s as [|c r]; [discriminate|]. unfold isTitleText.
  intros H. apply andb_prop in H as [H H3]. apply andb_prop in H as [H1 H2].
  apply Nat.leb_le in H2. cbn [forallb existsb List.length].
  rewrite H1, H3. unfold isHeadingChar. rewrite H1.
  simpl. repeat split. lia.
Qed.

Lemma last_app_nonempty (a b : jsstring) (d : char) :
  b <> [] -> last (a ++ b) d = last b d.
Proof.
  intros H. induction a as [|x a IH]; [reflexivity|].
  simpl. destruct (a ++ b) eqn:E; [|exact IH].
  apply app_eq_nil in E as [_ E]. congruence.
Qed.

Lemma forallb_last (q : char -> bool) (s : jsstring) (d : char) :
  s <> [] -> forallb q s = true -> q (last s d) = true.
Proof.
  induction s as [|c t IH]; [congruence|]. intros _ H.
  simpl in H. apply andb_prop in H as [H1 H2].
  destruct t as [|x t]; [exact H1|]. apply IH; [discriminate | exact H2].
Qed.

(** X26: a heading line has between 4 and 79 characters, holds an
    upper-case letter, and ends with a letter, a digit, a whitespace
    character or a hyphen; so a line that ends with a full stop, a colon
    or any other punctuation is never a heading. *)
Theorem isHeading_necessary (line : jsstring) :
  isHeading line = true ->
  (4 <= List.length line < 80)%nat
  /\ existsb isUpper line = true
  /\ isHeadingChar (last line SPACE) = true.
Proof.
  intros H. unfold isHeading in H. apply andb_prop in H as [M L].
  apply Nat.ltb_lt in L. apply fullMatch_matches, matches_heading in M.
  unfold headingShape in M. apply isTitleText_chars in M as (M1 & M2 & M3).
  destruct (stripMarker_suffix line) as [pre E].
  pose proof (takeWhile_dropWhile isWhitespace (stripMarker line)) as W.
  set (title := dropWhile isWhitespace (stripMarker line)) in *.
  assert (T : title <> []) by (destruct title; [simpl in M1; lia | discriminate]).
  assert (E' : line = (pre ++ takeWhile isWhitespace (stripMarker line)) ++ title)
    by (now rewrite <- app_assoc, W).
  split; [|split].
  - split; [|exact L]. rewrite E', length_app. lia.
  - rewrite E', existsb_app, M3. apply orb_true_r.
  - rewrite E', (last_app_nonempty _ _ _ T). now apply forallb_last.
Qed.

Lemma isHeading_necessary_witness :
  isHeading (str "1. Overview") = true
  /\ (4 <= List.length (str "1. Overview") < 80)%nat
  /\ existsb isUpper (str "1. Overview") = true
  /\ isHeadingChar (last (str "1. Overview") SPACE) = true.
Proof.
  assert (H : isHeading (str "1. Overview") = true) by (vm_compute; reflexivity).
  split; [exact H|]. exact (isHeading_necessary (str "1. Overview") H).
Defined.

(** ** Tokenizing the tokens again *)

Lemma lowerWordChar_plain (c : char) :
  isLowerWordChar c = true ->
  isWhitespace c = false /\ isTabOrSpace c = false /\ isNewline c = false
  /\ isAscii c = true /\ isUpper c = false /\ isTokenChar c = true
  /\ nbspToSpace c = c.
Proof.
  intros H.
  assert (B : (97 <= c <= 122) \/ (48 <= c <= 57) \/ c = 45).
  { unfold isLowerWordChar, isLower, isDigit in H.
    destruct (N.leb_spec 97 c), (N.leb_spec c 122), (N.leb_spec 48 c),
      (N.leb_spec c 57), (N.eqb_spec c 45); simpl in H; try discriminate H; lia. }
  assert (T : isTokenChar c = true).
  { unfold isTokenChar. unfold isLowerWordChar in H.
    destruct (isLower c); [reflexivity|]. destruct (isDigit c).
    - now rewrite orb_true_r.
    - simpl in H. rewrite H. now rewrite !orb_true_r. }
  unfold isWhitespace, isTabOrSpace, isNewline, isAscii, isUpper, nbspToSpace, NBSP.
  repeat split; try exact T; case_bounds.
Qed.

Lemma joinedChar_plain (c : char) :
  isJoinedChar c = true ->
  isNewline c = false /\ isAscii c = true /\ isUpper c = false
  /\ isTokenChar c = true /\ nbspToSpace c = c.
Proof.
  unfold isJoinedChar. intros H. apply orb_prop in H as [H|H].
  - apply lowerWordChar_plain in H. tauto.
  - apply N.eqb_eq in H. subst c. repeat split.
Qed.

Lemma forallb_join (q : char -> bool) (sep : jsstring) (l : list jsstring) :
  forallb q sep = true -> Forall (fun w => forallb q w = true) l ->
  forallb q (join sep l) = true.
Proof.
  intros Hs H. induction H as [|x l Hx Hl IH]; [reflexivity|].
  destruct l as [|y l]; [exact Hx|].
  change (join sep (x :: y :: l)) with (x ++ sep ++ join sep (y :: l)).
  now rewrite !forallb_app, Hx, Hs, IH.
Qed.

Section Words.
Variable p : char -> bool.
Hypothesis p_space : p SPACE = true.
Hypothesis p_word : forall c, isLowerWordChar c = true -> p c = false.

Lemma settled_word_app (w rest : jsstring) :
  forallb isLowerWordChar w = true -> settled p rest = true ->
  settled p (w ++ rest) = true.
Proof.
  induction w as [|c w IH]; simpl; intros H R; [exact R|].
  apply andb_prop in H as [H1 H2]. now rewrite (p_word _ H1), IH.
Qed.

Lemma startsWith_word (w rest : jsstring) :
  w <> [] -> forallb isLowerWordChar w = true -> startsWith p (w ++ rest) = false.
Proof.
  destruct w as [|c w]; [congruence|]. simpl. intros _ H.
  apply andb_prop in H as [H _]. now apply p_word.
Qed.

Lemma settled_join (l : list jsstring) :
  Forall (fun w => forallb isLowerWordChar w = true /\ w <> []) l ->
  settled p (join [SPACE] l) = true
  /\ (l <> [] -> startsWith p (join [SPACE] l) = false).
Proof.
  induction 1 as [|x l [Hx Nx] Hl [IH1 IH2]]; [split; reflexivity|].
  destruct l as [|y l].
  - simpl. split.
    + rewrite <- (app_nil_r x). now apply settled_word_app.
    + intros _. rewrite <- (app_nil_r x). now apply startsWith_word.
  - change (join [SPACE] (x :: y :: l)) with (x ++ SPACE :: join [SPACE] (y :: l)).
    split; [|intros _; now apply startsWith_word].
    apply settled_word_app; [exact Hx|].
    cbn [settled]. rewrite IH1, IH2 by discriminate.
    rewrite N.eqb_refl. now rewrite orb_true_r.
Qed.

Lemma splitRuns_word (w : jsstring) :
  forallb isLowerWordChar w = true -> splitRuns p w = [w].
Proof.
  induction w as [|c w IH]; simpl; intros H; [reflexivity|].
  apply andb_prop in H as [H1 H2]. now rewrite (p_word _ H1), (IH H2).
Qed.

Lemma splitRuns_join (l : list jsstring) :
  l <> [] ->
  Forall (fun w => forallb isLowerWordChar w = true /\ w <> []) l ->
  splitRuns p (join [SPACE] l) = l.
Proof.
  intros N H. revert N. induction H as [|x l [Hx Nx] Hl IH]; intros N; [now elim N|].
  destruct l as [|y l]; [now apply splitRuns_word|].
  change (join [SPACE] (x :: y :: l)) with (x ++ (SPACE :: []) ++ join [SPACE] (y :: l)).
  rewrite splitRuns_run.
  - rewrite IH by discriminate. reflexivity.
  - revert Hx. apply forallb_weaken. intros c Hc. now rewrite (p_word _ Hc).
  - simpl. now rewrite p_space.
  - apply (proj2 (settled_join (y :: l) Hl)). discriminate.
Qed.

End Words.

Lemma join_last_char (l : list jsstring) :
  l <> [] ->
  Forall (fun w => forallb isLowerWordChar w = true /\ w <> []) l ->
  exists a c, join [SPACE] l = a ++ [c] /\ isLowerWordChar c = true.
Proof.
  intros N H. revert N. induction H as [|x l [Hx Nx] Hl IH]; intros N; [now elim N|].
  destruct l as [|y l].
  - destruct (exists_last Nx) as (a & c & ->). exists a, c. split; [reflexivity|].
    rewrite forallb_app in Hx. apply andb_prop in Hx as [_ Hx]. simpl in Hx.
    now rewrite andb_true_r in Hx.
  - destruct IH as (a & c & E & Hc); [discriminate|].
    exists (x ++ SPACE :: a), c. split; [|exact Hc].
    change (join [SPACE] (x :: y :: l)) with (x ++ SPACE :: join [SPACE] (y :: l)).
    rewrite E, <- app_assoc. reflexivity.
Qed.

Lemma noTriple_oneLine (s : jsstring) : oneLine s = true -> noTriple s = true.
Proof.
  unfold oneLine. induction s as [|c t IH]; simpl; [reflexivity|].
  intros H. apply andb_prop in H as [H1 H2]. apply negb_true_iff in H1.
  now rewrite H1, IH.
Qed.

Lemma map_fixed (f : char -> char) (q : char -> bool) (s : jsstring) :
  (forall c, q c = true -> f c = c) -> forallb q s = true -> List.map f s = s.
Proof.
  intros Hf. induction s as [|c t IH]; simpl; [reflexivity|].
  intros H. apply andb_prop in H as [H1 H2]. now rewrite (Hf _ H1), IH.
Qed.

Lemma cleanText_joined (l : list jsstring) :
  Forall (fun w => forallb isLowerWordChar w = true /\ w <> []) l ->
  cleanText (join [SPACE] l) = join [SPACE] l.
Proof.
  intros H.
  assert (Q : forallb isJoinedChar (join [SPACE] l) = true).
  { apply forallb_join; [reflexivity|]. eapply Forall_impl; [|exact H].
    intros w [Hw _]. revert Hw. apply forallb_weaken.
    intros c Hc. unfold isJoinedChar. now rewrite Hc. }
  unfold cleanText.
  rewrite (map_fixed nbspToSpace isJoinedChar) by (auto; intros c Hc; now apply joinedChar_plain).
  rewrite replaceRuns_settled;
    [|apply settled_join; auto; intros c Hc; now apply lowerWordChar_plain].
  rewrite squeezeNewlines_noTriple.
  2:{ apply noTriple_oneLine. revert Q. apply forallb_weaken.
      intros c Hc. apply joinedChar_plain in Hc as [-> _]. reflexivity. }
  destruct l as [|x l]; [reflexivity|].
  unfold trim, trimStart. rewrite dropWhile_fixed.
  2:{ apply (settled_join isWhitespace); auto; try discriminate.
      intros c Hc. now apply lowerWordChar_plain. }
  destruct (join_last_char (x :: l)) as (a & c & E & Hc); [discriminate | exact H|].
  unfold trimEnd. rewrite E, rev_app_distr. simpl.
  apply lowerWordChar_plain in Hc as [-> _]. simpl.
  now rewrite rev_involutive.
Qed.

Section Retokenize.
Variable unicodeLower : jsstring -> jsstring.

Lemma tokenize_joined (l : list jsstring) :
  Forall (fun w => forallb isLowerWordChar w = true /\ keepToken w = true) l ->
  tokenize unicodeLower (join [SPACE] l) = l.
Proof.
  intros H.
  assert (W : Forall (fun w => forallb isLowerWordChar w = true /\ w <> []) l).
  { eapply Forall_impl; [|exact H]. intros w [Hw K]. split; [exact Hw|].
    intros ->. discriminate K. }
  assert (Q : forallb isJoinedChar (join [SPACE] l) = true).
  { apply forallb_join; [reflexivity|]. eapply Forall_impl; [|exact H].
    intros w [Hw _]. revert Hw. apply forallb_weaken.
    intros c Hc. unfold isJoinedChar. now rewrite Hc. }
  unfold tokenize. rewrite (cleanText_joined l W). unfold toLowerCase.
  assert (A : forallb isAscii (join [SPACE] l) = true).
  { revert Q. apply forallb_weaken. intros c Hc. now apply joinedChar_plain. }
  rewrite A.
  rewrite (map_fixed lowerAscii isJoinedChar _) ; [|
    intros c Hc; unfold lowerAscii; apply joinedChar_plain in Hc as (_ & _ & -> & _);
    reflexivity | exact Q].
  rewrite (map_fixed blankNonToken isJoinedChar _); [|
    intros c Hc; unfold blankNonToken; apply joinedChar_plain in Hc as (_ & _ & _ & -> & _);
    reflexivity | exact Q].
  destruct l as [|x l]; [reflexivity|].
  rewrite (splitRuns_join isWhitespace); auto; try discriminate.
  - apply filter_all. intros w Hw. now apply (proj1 (Forall_forall _ _) H).
  - intros c Hc. now apply lowerWordChar_plain.
Qed.

(** X27: on a text of ASCII characters the tokens are stable: joining
    the tokens with single spaces and tokenizing the result gives the same
    tokens, in the same order. *)
Theorem tokenize_tokens (t : jsstring) :
  forallb isAscii t = true ->
  tokenize unicodeLower (join [SPACE] (tokenize unicodeLower t)) = tokenize unicodeLower t.
Proof.
  intros A. apply tokenize_joined.
  pose proof (tokenize_lower_chars unicodeLower t A) as L.
  apply Forall_forall. intros w H. split.
  - now apply (proj1 (Forall_forall _ _) L).
  - unfold tokenize in H. now apply filter_In in H as [_ H].
Qed.

End Retokenize.

Lemma tokenize_tokens_witness :
  forallb isAscii (str "The Cat-2 SAT. A cat sat!") = true
  /\ forall unicodeLower,
       tokenize unicodeLower
         (join [SPACE] (tokenize unicodeLower (str "The Cat-2 SAT. A cat sat!")))
       = tokenize unicodeLower (str "The Cat-2 SAT. A cat sat!").
Proof.
  split; [reflexivity|]. intros unicodeLower.
  exact (tokenize_tokens unicodeLower (str "The Cat-2 SAT. A cat sat!") eq_refl).
Defined.
